(** * Book Finder: the search view of [src/App.jsx], embedded in Rocq

    The component is one React function whose handlers read the values of
    the render they were created in and update the state through setters.
    The embedding keeps that shape:

    - JavaScript values that may be missing are [jsval A]
      ([Undefined], [Null] or a value), with the language's truthiness,
      [||] and template-literal conversion written out;
    - numbers are integers ([Z]); the remote API reports counts, years and
      cover identifiers as integers, all far below 2^53;
    - strings are [string], one character per UTF-16 code unit below 256;
    - the save-set is a finite map from keys to entries ([gmap]);
    - handlers are computations in a state-and-exception monad over the
      component state, the log of requests sent and the scroll position;
    - the platform functions the component calls but does not define
      ([JSON.parse], [String.prototype.localeCompare]) are class members. *)

From Stdlib Require Import ZArith QArith Qround Lia Ascii String.
From stdpp Require Import base strings list gmap sorting pretty.

Local Close Scope Q_scope.
Local Open Scope string_scope.
Local Open Scope Z_scope.

(** ** JavaScript values *)

Inductive jsval (A : Type) : Type :=
| Undefined
| Null
| Val (a : A).
Arguments Undefined {A}.
Arguments Null {A}.
Arguments Val {A} a.

(** [ToBoolean]. *)
Class Truthy (A : Type) := truthy : A → bool.

#[global] Instance truthy_string : Truthy string :=
  λ s, match s with "" => false | _ => true end.
#[global] Instance truthy_number : Truthy Z :=
  λ n, negb (n =? 0).
(** Arrays are objects, and every object is truthy. *)
#[global] Instance truthy_array {A} : Truthy (list A) :=
  λ _, true.
#[global] Instance truthy_jsval {A} `{Truthy A} : Truthy (jsval A) :=
  λ v, match v with Val a => truthy a | _ => false end.

(** [ToString], as a template literal applies it. *)
Class ToString (A : Type) := toString : A → string.

#[global] Instance toString_string : ToString string := λ s, s.
#[global] Instance toString_number : ToString Z := λ n, pretty n.
#[global] Instance toString_jsval {A} `{ToString A} : ToString (jsval A) :=
  λ v, match v with
       | Undefined => "undefined"
       | Null => "null"
       | Val a => toString a
       end.

(** [a || b] when both operands may be missing. *)
Definition js_or {A} `{Truthy A} (a b : jsval A) : jsval A :=
  if truthy a then a else b.

(** [a || b] when [b] is a plain value: the result is one too. *)
Definition or_else {A} `{Truthy A} (a : jsval A) (b : A) : A :=
  match a with
  | Val x => if truthy x then x else b
  | _ => b
  end.

(** [a || null]. *)
Definition or_null {A} `{Truthy A} (a : jsval A) : jsval A :=
  js_or a Null.

(** [a && f a] for an array [a]: a missing array is returned as it is. *)
Definition and_then {A B} (a : jsval (list A)) (f : list A → jsval B) : jsval B :=
  match a with
  | Undefined => Undefined
  | Null => Null
  | Val l => f l
  end.

(** [l[i]]: reading past the end gives [undefined]. *)
Definition index {A} (l : list A) (i : nat) : jsval A :=
  match l !! i with
  | Some x => Val x
  | None => Undefined
  end.

Notation "a ||| b" := (js_or a b) (at level 50, left associativity).
Notation "a ||: b" := (or_else a b) (at level 50, left associativity).

(** ** [String.prototype.trim] *)

(** White space and line terminators among the code units below 256:
    TAB, LF, VT, FF, CR, SP and NBSP. *)
Definition is_white_space (c : ascii) : bool :=
  let n := N_of_ascii c in
  ((9 <=? n) && (n <=? 13) || (n =? 32) || (n =? 160))%N.

Fixpoint trimStart (s : string) : string :=
  match s with
  | "" => ""
  | String c s' => if is_white_space c then trimStart s' else s
  end.

Fixpoint trimEnd (s : string) : string :=
  match s with
  | "" => ""
  | String c s' =>
      match trimEnd s' with
      | "" => if is_white_space c then "" else String c ""
      | t => String c t
      end
  end.

Definition trim (s : string) : string := trimEnd (trimStart s).

(** ** Exceptions *)

Inductive exn : Type :=
| Error (message : string)
| TypeError (message : string)
| SyntaxError
| SecurityError.

Inductive Exc (A : Type) : Type :=
| Ok (a : A)
| Throw (e : exn).
Arguments Ok {A} a.
Arguments Throw {A} e.

#[global] Instance Exc_ret : MRet Exc := λ _ a, Ok a.
#[global] Instance Exc_bind : MBind Exc :=
  λ _ _ f m, match m with Ok a => f a | Throw e => Throw e end.

(** [try { body } catch { handler }]. *)
Definition try_catch {A} (body : Exc A) (handler : exn → Exc A) : Exc A :=
  match body with
  | Ok a => Ok a
  | Throw e => handler e
  end.

(** ** [Math.ceil(a / b)] and [Array.prototype.sort] *)

(** The quotient is taken in the rationals and then rounded up, as the
    source divides two numbers and calls [Math.ceil] on the result. *)
Definition Math_ceil_div (a b : Z) : Z :=
  Qceiling (Qdiv (inject_Z a) (inject_Z b)).

(** [Array.prototype.sort] with a comparator is a stable sort: an element
    goes before the first later element it does not compare greater than.
    The comparator returns a number; only its sign is used. *)
Fixpoint sort_insert {A} (cmp : A → A → Z) (x : A) (l : list A) : list A :=
  match l with
  | [] => [x]
  | y :: l' => if cmp x y <=? 0 then x :: l else y :: sort_insert cmp x l'
  end.

Definition Array_sort {A} (cmp : A → A → Z) (l : list A) : list A :=
  foldr (sort_insert cmp) [] l.

(** The order a comparator stands for: [a] may stay before [b]. *)
Definition cmp_le {A} (cmp : A → A → Z) (a b : A) : Prop := cmp a b ≤ 0.

(** Elements the comparator does not tell apart. *)
Definition cmp_tie {A} (cmp : A → A → Z) (a b : A) : Prop :=
  cmp a b ≤ 0 ∧ cmp b a ≤ 0.

#[global] Instance cmp_tie_dec {A} (cmp : A → A → Z) : RelDecision (cmp_tie cmp).
Proof. intros a b. unfold cmp_tie. apply _. Defined.

(** ** Platform functions *)

(** [String.prototype.localeCompare] depends on the host's locale data. *)
Class Locale := localeCompare : string → string → Z.

(** The language requires [localeCompare] to be a consistent comparator:
    the induced "not greater than" is total and transitive. *)
Class LocaleConsistent `{Locale} : Prop := {
  localeCompare_total a b : localeCompare a b ≤ 0 ∨ localeCompare b a ≤ 0;
  localeCompare_trans a b c :
    localeCompare a b ≤ 0 → localeCompare b c ≤ 0 → localeCompare a c ≤ 0
}.

(** [JSON.parse] at the type of the stored value: it returns the value or
    throws [SyntaxError]. *)
Class Json (A : Type) := JSON_parse : string → Exc A.

(** ** Data model *)

Definition LIMIT : Z := 20.

(** One record of the search response. *)
Record Doc : Type := mkDoc {
  key : jsval string;
  cover_edition_key : jsval string;
  title : jsval string;
  first_publish_year : jsval Z;
  cover_i : jsval Z;
  author_name : jsval (list string);
  subject : jsval (list string)
}.

(** One entry of the save-set, as [toggleSave] builds it. *)
Record SavedEntry : Type := mkSaved {
  e_key : string;
  e_title : jsval string;
  e_author : string;
  e_year : jsval Z;
  e_cover : jsval string;
  e_work : jsval string
}.

(** The save-set is a JavaScript object used as a map from keys to entries:
    the map holds its own properties. What a read [obj[k]] finds besides,
    up the prototype chain, is [inherits] below. *)
Abbreviation SaveSet := (gmap string SavedEntry).

(** The [useState] cells of [App]. *)
Record State : Type := mkState {
  query : string;
  author : string;
  sort : string;
  page : Z;
  loading : bool;
  error : string;
  docs : list Doc;
  numFound : Z;
  selected : jsval Doc;
  saved : SaveSet
}.

(** A [URL] under construction: the endpoint and its search parameters in
    order. *)
Record URL : Type := mkURL {
  endpoint : string;
  searchParams : list (string * string)
}.

(** The body of a response: [res.json()] rejects, or resolves to an object
    of the documented shape whose two members may be missing. *)
Inductive Body : Type :=
| BodyInvalid
| BodyJson (data_docs : jsval (list Doc)) (data_numFound : jsval Z).

(** What [fetch] settles to: a rejection, or a response with a status. *)
Inductive FetchOutcome : Type :=
| NetworkFailure
| Response (status : Z) (body : Body).

Abbreviation Network := (URL → FetchOutcome).

(** Browser storage: reading it may be denied, which throws. *)
Record Storage : Type := mkStorage {
  denied : bool;
  items : gmap string string
}.

(** What a handler can change: the component state, the requests sent so
    far, and the vertical scroll position of the window. *)
Record World : Type := mkWorld {
  app : State;
  sent : list URL;
  scrollTop : Z
}.

(** ** The handler monad *)

Definition M (A : Type) : Type := World → Exc A * World.

#[global] Instance M_ret : MRet M := λ _ a w, (Ok a, w).
#[global] Instance M_bind : MBind M :=
  λ _ _ f m w,
    match m w with
    | (Ok a, w') => f a w'
    | (Throw e, w') => (Throw e, w')
    end.

Definition throw {A} (e : exn) : M A := λ w, (Throw e, w).

(** [try { body } catch (e) { handler }]: what [body] did to the state
    before it threw stays done. *)
Definition M_try_catch {A} (body : M A) (handler : exn → M A) : M A :=
  λ w,
    match body w with
    | (Ok a, w') => (Ok a, w')
    | (Throw e, w') => handler e w'
    end.

(** [... finally { fin }]: [fin] runs on both exits. *)
Definition M_finally {A} (body : M A) (fin : M unit) : M A :=
  λ w,
    match body w with
    | (r, w') =>
        match fin w' with
        | (Ok _, w'') => (r, w'')
        | (Throw e, w'') => (Throw e, w'')
        end
    end.

Definition modify (f : State → State) : M unit :=
  λ w, (Ok (), mkWorld (f (app w)) (sent w) (scrollTop w)).

Definition setPage (v : Z) : M unit :=
  modify (λ s, mkState (query s) (author s) (sort s) v (loading s) (error s)
                 (docs s) (numFound s) (selected s) (saved s)).
Definition setLoading (v : bool) : M unit :=
  modify (λ s, mkState (query s) (author s) (sort s) (page s) v (error s)
                 (docs s) (numFound s) (selected s) (saved s)).
Definition setError (v : string) : M unit :=
  modify (λ s, mkState (query s) (author s) (sort s) (page s) (loading s) v
                 (docs s) (numFound s) (selected s) (saved s)).
Definition setDocs (v : list Doc) : M unit :=
  modify (λ s, mkState (query s) (author s) (sort s) (page s) (loading s)
                 (error s) v (numFound s) (selected s) (saved s)).
Definition setNumFound (v : Z) : M unit :=
  modify (λ s, mkState (query s) (author s) (sort s) (page s) (loading s)
                 (error s) (docs s) v (selected s) (saved s)).
(** [setSaved] is called with an updater function of the previous value. *)
Definition setSaved (f : SaveSet → SaveSet) : M unit :=
  modify (λ s, mkState (query s) (author s) (sort s) (page s) (loading s)
                 (error s) (docs s) (numFound s) (selected s) (f (saved s))).

(** [window.scrollTo({ top })]. *)
Definition scrollTo (top : Z) : M unit :=
  λ w, (Ok (), mkWorld (app w) (sent w) top).

(** ** [URLSearchParams.set], [fetch], [res.ok], [res.json()] *)

Fixpoint params_delete (name : string) (l : list (string * string))
  : list (string * string) :=
  match l with
  | [] => []
  | (n, v) :: l' =>
      if String.eqb n name then params_delete name l'
      else (n, v) :: params_delete name l'
  end.

(** [set] overwrites the first parameter of that name and drops the others,
    or appends. *)
Fixpoint params_set (name value : string) (l : list (string * string))
  : list (string * string) :=
  match l with
  | [] => [(name, value)]
  | (n, v) :: l' =>
      if String.eqb n name then (name, value) :: params_delete name l'
      else (n, v) :: params_set name value l'
  end.

Definition new_URL (href : string) : URL := mkURL href [].

Definition searchParams_set (name value : string) (u : URL) : URL :=
  mkURL (endpoint u) (params_set name value (searchParams u)).

(** [await fetch(url)]: the request is sent, whatever comes back. *)
Definition fetch (net : Network) (url : URL) : M (Z * Body) :=
  λ w,
    let w' := mkWorld (app w) (sent w ++ [url]) (scrollTop w) in
    match net url with
    | NetworkFailure => (Throw (TypeError "Failed to fetch"), w')
    | Response status body => (Ok (status, body), w')
    end.

Definition res_ok (status : Z) : bool :=
  (200 <=? status) && (status <=? 299).

Definition res_json (body : Body) : M (jsval (list Doc) * jsval Z) :=
  match body with
  | BodyInvalid => throw SyntaxError
  | BodyJson d n => mret (d, n)
  end.

(** ** The component's functions *)

Definition buildCoverUrl (doc : Doc) (size : string) : jsval string :=
  if truthy (cover_i doc) then
    Val ("https://covers.openlibrary.org/b/id/" ++ toString (cover_i doc)
           ++ "-" ++ size ++ ".jpg")
  else Null.

Definition toBookKey (doc : Doc) : string :=
  key doc ||| cover_edition_key doc
    ||: (toString (title doc) ++ "-"
           ++ (if truthy (first_publish_year doc)
               then toString (first_publish_year doc) else "")).

(** [localStorage.getItem]: [null] when the slot is empty. *)
Definition getItem (st : Storage) (k : string) : Exc (jsval string) :=
  if denied st then Throw SecurityError
  else Ok (match items st !! k with Some s => Val s | None => Null end).

(** The initialiser [useLocalStorage] hands to [useState]. *)
Definition useLocalStorage_init {A} `{Json A}
    (st : Storage) (k : string) (initial : A) : Exc A :=
  try_catch
    (raw ← getItem st k;
     match raw with
     | Val s => if truthy s then JSON_parse s else Ok initial
     | _ => Ok initial
     end)
    (λ _, Ok initial).

(** The initial value of [saved]. *)
Definition saved_init `{Json SaveSet} (st : Storage) : Exc SaveSet :=
  useLocalStorage_init st "bf_saved" ∅.

(** [searchBooks] reads [query], [author] and [page] from the render [r] it
    closes over, and writes through the setters. *)
Definition searchBooks (net : Network) (r : State) (pageOverride : jsval Z)
  : M unit :=
  let q := trim (query r) in
  if negb (truthy q) then mret ()
  else
    setLoading true;;
    setError "";;
    M_finally
      (M_try_catch
         (let pageToUse := pageOverride ||: page r in
          let url := new_URL "https://openlibrary.org/search.json" in
          let url := searchParams_set "title" q url in
          let url :=
            if truthy (trim (author r))
            then searchParams_set "author" (trim (author r)) url
            else url in
          let url := searchParams_set "page" (toString pageToUse) url in
          let url := searchParams_set "limit" (toString LIMIT) url in
          res ← fetch net url;
          if negb (res_ok res.1)
          then throw (Error ("HTTP " ++ toString res.1))
          else
            data ← res_json res.2;
            setDocs (data.1 ||: []);;
            setNumFound (data.2 ||: 0))
         (λ _,
            setError "Something went wrong. There was a network or API error."))
      (setLoading false).

Definition onSubmit (net : Network) (r : State) : M unit :=
  setPage 1;;
  searchBooks net r (Val 1).

(** The object literal [toggleSave] stores under the key [k]. *)
Definition new_entry (k : string) (doc : Doc) : SavedEntry :=
  {| e_key := k;
     e_title := title doc;
     e_author := and_then (author_name doc) (λ a, index a 0) ||: "Unknown";
     e_year := or_null (first_publish_year doc);
     e_cover := buildCoverUrl doc "M";
     e_work := or_null (key doc) |}.

(** The members a plain object inherits from [Object.prototype]. Each is a
    function or, for [__proto__], the prototype object itself: all truthy. *)
Definition Object_prototype : list string :=
  ["constructor"; "hasOwnProperty"; "isPrototypeOf"; "propertyIsEnumerable";
   "toLocaleString"; "toString"; "valueOf"; "__proto__";
   "__defineGetter__"; "__defineSetter__"; "__lookupGetter__";
   "__lookupSetter__"].

Definition inherits (k : string) : bool :=
  bool_decide (k ∈ Object_prototype).

(** [if (obj[k])] on a save-set: an own entry is an object, hence truthy,
    and so is an inherited member. *)
Definition truthy_at (obj : SaveSet) (k : string) : bool :=
  bool_decide (is_Some (obj !! k)) || inherits k.

(** The updater [toggleSave] passes to [setSaved]. [delete] removes an own
    property and does nothing when there is none. *)
Definition toggleSave_next (doc : Doc) (prev : SaveSet) : SaveSet :=
  let k := toBookKey doc in
  let next := prev in
  if truthy_at next k then delete k next
  else <[k := new_entry k doc]> next.

Definition toggleSave (doc : Doc) : M unit :=
  setSaved (toggleSave_next doc).

(** [sortedDocs]: a copy of [docs], sorted by the selected order. *)
Definition sortedDocs `{Locale} (docs : list Doc) (sort : string) : list Doc :=
  let arr := docs in
  if String.eqb sort "year_desc" then
    Array_sort
      (λ a b, (first_publish_year b ||: 0) - (first_publish_year a ||: 0)) arr
  else if String.eqb sort "year_asc" then
    Array_sort
      (λ a b, (first_publish_year a ||: 0) - (first_publish_year b ||: 0)) arr
  else if String.eqb sort "title_asc" then
    Array_sort (λ a b, localeCompare (title a ||: "") (title b ||: "")) arr
  else arr.

(** The same with the arrays in a heap: [[...docs]] allocates, and
    [arr.sort] writes the array it is called on. *)
Abbreviation Heap := (gmap positive (list Doc)).

Definition spread (h : Heap) (src : positive) : Heap * positive :=
  let arr := fresh (dom h) in
  (<[arr := default [] (h !! src)]> h, arr).

Definition sort_in_place (cmp : Doc → Doc → Z) (arr : positive) (h : Heap)
  : Heap :=
  alter (Array_sort cmp) arr h.

Definition sortedDocs_heap `{Locale} (h : Heap) (docs : positive)
    (sort : string) : Heap * positive :=
  let '(h, arr) := spread h docs in
  if String.eqb sort "year_desc" then
    (sort_in_place
       (λ a b, (first_publish_year b ||: 0) - (first_publish_year a ||: 0))
       arr h, arr)
  else if String.eqb sort "year_asc" then
    (sort_in_place
       (λ a b, (first_publish_year a ||: 0) - (first_publish_year b ||: 0))
       arr h, arr)
  else if String.eqb sort "title_asc" then
    (sort_in_place
       (λ a b, localeCompare (title a ||: "") (title b ||: "")) arr h, arr)
  else (h, arr).

Definition totalPages (numFound : Z) : Z :=
  Z.max 1 (Math_ceil_div numFound LIMIT).

Definition gotoPage (net : Network) (r : State) (p : Z) : M unit :=
  let clamped := Z.min (Z.max 1 p) (totalPages (numFound r)) in
  setPage clamped;;
  searchBooks net r (Val clamped);;
  scrollTo 0.

(** ** The rest of the component: handlers and what the view derives *)

Definition setQuery (v : string) : M unit :=
  modify (λ s, mkState v (author s) (sort s) (page s) (loading s) (error s)
                 (docs s) (numFound s) (selected s) (saved s)).
Definition setAuthor (v : string) : M unit :=
  modify (λ s, mkState (query s) v (sort s) (page s) (loading s) (error s)
                 (docs s) (numFound s) (selected s) (saved s)).

(** The [onClick] of a quick-example button showing [ex]. *)
Definition quickPick (ex : string) : M unit :=
  setQuery ex;;
  setAuthor "";;
  setPage 1.

(** The updater of the Remove button beside the saved entry [b]. *)
Definition removeSaved_next (b : SavedEntry) (prev : SaveSet) : SaveSet :=
  let n := prev in
  delete (e_key b) n.

Definition removeSaved (b : SavedEntry) : M unit :=
  setSaved (removeSaved_next b).

(** The [disabled] attributes of the Search, Prev and Next buttons. *)
Definition submit_disabled (r : State) : bool :=
  negb (truthy (trim (query r))) || loading r.

Definition prev_disabled (r : State) : bool :=
  (page r <=? 1) || loading r.

Definition next_disabled (r : State) : bool :=
  (totalPages (numFound r) <=? page r) || loading r.

(** The two ends of "Showing a–b of n". *)
Definition showing_from (r : State) : Z := (page r - 1) * LIMIT + 1.

Definition showing_to (r : State) : Z := Z.min (page r * LIMIT) (numFound r).

(** [Array.prototype.join] on an array of strings. *)
Fixpoint Array_join (sep : string) (l : list string) : string :=
  match l with
  | [] => ""
  | [x] => x
  | x :: l' => x ++ sep ++ Array_join sep l'
  end.

(** The author line of a result card and of the detail overlay. *)
Definition card_author (doc : Doc) : string :=
  and_then (author_name doc) (λ a, index a 0) ||: "Unknown author".

Definition overlay_authors (doc : Doc) : string :=
  and_then (author_name doc) (λ a, Val (Array_join ", " a))
    ||: "Unknown author".

(** The [href] of the Open Library link of a card or of the overlay. *)
Definition card_href (doc : Doc) : string :=
  "https://openlibrary.org" ++ toString (key doc).

(** The View link of a saved entry: rendered only when [b.work] is truthy,
    and then with this [href]. *)
Definition saved_href (b : SavedEntry) : option string :=
  if truthy (e_work b)
  then Some ("https://openlibrary.org" ++ toString (e_work b))
  else None.

(** ** Writing the save-set back *)

(** [JSON.stringify] at the type of the stored value. *)
Class JsonStringify (A : Type) := JSON_stringify : A → Exc string.

(** Whether the host still has room to store [v] under [k]. *)
Class Quota := has_room : Storage → string → string → bool.

(** [localStorage.setItem]: it throws when the storage is denied or full. *)
Definition setItem `{Quota} (st : Storage) (k v : string) : Exc Storage :=
  if denied st then Throw SecurityError
  else if has_room st k v then Ok (mkStorage (denied st) (<[k := v]> (items st)))
  else Throw (Error "QuotaExceededError").

(** The effect of [useLocalStorage]: the storage it leaves behind. *)
Definition useLocalStorage_effect {A} `{JsonStringify A} `{Quota}
    (st : Storage) (k : string) (value : A) : Exc Storage :=
  try_catch
    (s ← JSON_stringify value;
     setItem st k s)
    (λ _, Ok st).

(** ** Concrete platforms and documents used in the examples *)

(** Comparison by code units, as a locale without tailoring gives on
    unaccented text. *)
Definition ordinal_locale : Locale :=
  λ a b, if decide (a = b) then 0 else if String.leb a b then -1 else 1.

(** A parser that accepts the empty object only. *)
Definition empty_object_json : Json SaveSet :=
  λ s, if String.eqb s "{}" then Ok ∅ else Throw SyntaxError.

Definition no_doc : Doc :=
  mkDoc Undefined Undefined Undefined Undefined Undefined Undefined Undefined.

Definition dune : Doc :=
  mkDoc (Val "/works/OL893415W") (Val "OL26242482M") (Val "Dune") (Val 1965)
    (Val 11481354) (Val ["Frank Herbert"]) Undefined.

(** A record with an edition key but no work key. *)
Definition dune_edition : Doc :=
  mkDoc Undefined (Val "OL26242482M") (Val "Dune") (Val 1965)
    Undefined (Val ["Frank Herbert"]) Undefined.

(** Two records without identifiers that agree on title and year. *)
Definition dune_a : Doc :=
  mkDoc Undefined Undefined (Val "Dune") (Val 1965)
    Undefined (Val ["Frank Herbert"]) Undefined.
Definition dune_b : Doc :=
  mkDoc Undefined Undefined (Val "Dune") (Val 1965)
    Undefined (Val ["F. Herbert"]) Undefined.

Definition emma : Doc :=
  mkDoc (Val "/works/OL66513W") Undefined (Val "Emma") (Val 1815)
    Undefined (Val ["Jane Austen"]) Undefined.

Definition state0 : State :=
  mkState "" "" "relevance" 1 false "" [] 0 Null ∅.

Definition world0 (s : State) : World := mkWorld s [] 0.

(** A host whose storage takes values of up to 5000 code units. *)
Definition small_quota : Quota :=
  λ _ _ v, bool_decide (String.length v ≤ 5000)%nat.

(** ** A JSON reader and printer for save-sets

    Numbers are integers, as everywhere in this file, and strings hold code
    units below 256; text that needs more is not accepted. *)

Local Unset Elimination Schemes.
Inductive json : Type :=
| JNull
| JBool (b : bool)
| JNum (n : Z)
| JStr (s : string)
| JArr (elements : list json)
| JObj (members : list (string * json)).
Local Set Elimination Schemes.

Definition dquote : ascii := "034"%char.
Definition backslash : ascii := "092"%char.

Definition is_json_space (c : ascii) : bool :=
  let n := N_of_ascii c in
  ((n =? 32) || (n =? 9) || (n =? 10) || (n =? 13))%N.

Fixpoint skip_space (s : string) : string :=
  match s with
  | "" => ""
  | String c s' => if is_json_space c then skip_space s' else s
  end.

Fixpoint strip_prefix (p s : string) : option string :=
  match p, s with
  | "", _ => Some s
  | String a p', String b s' => if Ascii.eqb a b then strip_prefix p' s' else None
  | _, _ => None
  end.

Definition digit_of (c : ascii) : option Z :=
  let n := N_of_ascii c in
  if ((48 <=? n) && (n <=? 57))%N then Some (Z.of_N (n - 48)) else None.

Fixpoint read_digits (acc : Z) (s : string) : Z * string :=
  match s with
  | "" => (acc, "")
  | String c s' =>
      match digit_of c with
      | Some d => read_digits (10 * acc + d) s'
      | None => (acc, s)
      end
  end.

(** [0], or a digit from 1 to 9 followed by digits. *)
Definition read_natural (s : string) : option (Z * string) :=
  match s with
  | "" => None
  | String c s' =>
      match digit_of c with
      | None => None
      | Some 0 =>
          match s' with
          | "" => Some (0, s')
          | String c' _ =>
              match digit_of c' with Some _ => None | None => Some (0, s') end
          end
      | Some d => Some (read_digits d s')
      end
  end.

(** An integer; a fraction or an exponent after it is refused. *)
Definition read_number (s : string) : option (Z * string) :=
  let '(negative, s) :=
    match s with
    | String c s' => if Ascii.eqb c "-" then (true, s') else (false, s)
    | "" => (false, s)
    end in
  match read_natural s with
  | None => None
  | Some (n, rest) =>
      let n := if negative : bool then - n else n in
      match rest with
      | "" => Some (n, rest)
      | String c _ =>
          if Ascii.eqb c "." || Ascii.eqb c "e" || Ascii.eqb c "E" then None
          else Some (n, rest)
      end
  end.

Definition hex_of (c : ascii) : option N :=
  let n := N_of_ascii c in
  if ((48 <=? n) && (n <=? 57))%N then Some (n - 48)%N
  else if ((65 <=? n) && (n <=? 70))%N then Some (n - 55)%N
  else if ((97 <=? n) && (n <=? 102))%N then Some (n - 87)%N
  else None.

Definition unescape (e : ascii) : option ascii :=
  if Ascii.eqb e dquote then Some dquote
  else if Ascii.eqb e backslash then Some backslash
  else if Ascii.eqb e "/" then Some "/"%char
  else if Ascii.eqb e "b" then Some "008"%char
  else if Ascii.eqb e "f" then Some "012"%char
  else if Ascii.eqb e "n" then Some "010"%char
  else if Ascii.eqb e "r" then Some "013"%char
  else if Ascii.eqb e "t" then Some "009"%char
  else None.

Definition prepend {B} (c : ascii) (p : string * B) : string * B :=
  (String c p.1, p.2).

(** The rest of a string literal, after its opening quote. *)
Fixpoint read_string (s : string) : option (string * string) :=
  match s with
  | "" => None
  | String c s' =>
      if Ascii.eqb c dquote then Some ("", s')
      else if Ascii.eqb c backslash then
        match s' with
        | "" => None
        | String e s'' =>
            if Ascii.eqb e "u" then
              match s'' with
              | String h1 (String h2 (String h3 (String h4 rest))) =>
                  match hex_of h1, hex_of h2, hex_of h3, hex_of h4 with
                  | Some 0%N, Some 0%N, Some a, Some b =>
                      prepend (ascii_of_N (16 * a + b)) <$> read_string rest
                  | _, _, _, _ => None
                  end
              | _ => None
              end
            else
              match unescape e with
              | Some c' => prepend c' <$> read_string s''
              | None => None
              end
        end
      else if (N_of_ascii c <? 32)%N then None
      else prepend c <$> read_string s'
  end.

Fixpoint parse_value (fuel : nat) (s : string) : option (json * string) :=
  match fuel with
  | O => None
  | S fuel =>
      match skip_space s with
      | "" => None
      | String c rest as s0 =>
          if Ascii.eqb c dquote then
            (λ p, (JStr p.1, p.2)) <$> read_string rest
          else if Ascii.eqb c "[" then
            match strip_prefix "]" (skip_space rest) with
            | Some rest' => Some (JArr [], rest')
            | None => (λ p, (JArr p.1, p.2)) <$> parse_elements fuel rest
            end
          else if Ascii.eqb c "{" then
            match strip_prefix "}" (skip_space rest) with
            | Some rest' => Some (JObj [], rest')
            | None => (λ p, (JObj p.1, p.2)) <$> parse_members fuel rest
            end
          else
            match strip_prefix "null" s0 with
            | Some rest' => Some (JNull, rest')
            | None =>
            match strip_prefix "true" s0 with
            | Some rest' => Some (JBool true, rest')
            | None =>
            match strip_prefix "false" s0 with
            | Some rest' => Some (JBool false, rest')
            | None => (λ p, (JNum p.1, p.2)) <$> read_number s0
            end end end
      end
  end
with parse_elements (fuel : nat) (s : string) : option (list json * string) :=
  match fuel with
  | O => None
  | S fuel =>
      match parse_value fuel s with
      | None => None
      | Some (v, s1) =>
          match skip_space s1 with
          | "" => None
          | String c s2 =>
              if Ascii.eqb c "," then
                (λ p, (v :: p.1, p.2)) <$> parse_elements fuel s2
              else if Ascii.eqb c "]" then Some ([v], s2)
              else None
          end
      end
  end
with parse_members (fuel : nat) (s : string)
  : option (list (string * json) * string) :=
  match fuel with
  | O => None
  | S fuel =>
      match skip_space s with
      | "" => None
      | String c s0 =>
          if negb (Ascii.eqb c dquote) then None
          else
            match read_string s0 with
            | None => None
            | Some (k, s1) =>
                match strip_prefix ":" (skip_space s1) with
                | None => None
                | Some s2 =>
                    match parse_value fuel s2 with
                    | None => None
                    | Some (v, s3) =>
                        match skip_space s3 with
                        | "" => None
                        | String c3 s4 =>
                            if Ascii.eqb c3 "," then
                              (λ p, ((k, v) :: p.1, p.2))
                                <$> parse_members fuel s4
                            else if Ascii.eqb c3 "}" then Some ([(k, v)], s4)
                            else None
                        end
                    end
                end
            end
      end
  end.

(** A whole text: one value, with nothing but white space after it. *)
Definition read_json (s : string) : option json :=
  match parse_value (2 * String.length s + 2) s with
  | Some (v, rest) =>
      match skip_space rest with "" => Some v | _ => None end
  | None => None
  end.

(** Of members with the same name the last one counts. *)
Fixpoint member (name : string) (ms : list (string * json)) : option json :=
  match ms with
  | [] => None
  | (n, v) :: ms' =>
      match member name ms' with
      | Some v' => Some v'
      | None => if String.eqb n name then Some v else None
      end
  end.

Definition as_string (o : option json) : option string :=
  match o with Some (JStr s) => Some s | _ => None end.

Definition as_optional_string (o : option json) : option (jsval string) :=
  match o with
  | None => Some Undefined
  | Some JNull => Some Null
  | Some (JStr s) => Some (Val s)
  | Some _ => None
  end.

Definition as_optional_number (o : option json) : option (jsval Z) :=
  match o with
  | None => Some Undefined
  | Some JNull => Some Null
  | Some (JNum n) => Some (Val n)
  | Some _ => None
  end.

Definition as_entry (j : json) : option SavedEntry :=
  match j with
  | JObj ms =>
      k ← as_string (member "key" ms);
      t ← as_optional_string (member "title" ms);
      a ← as_string (member "author" ms);
      y ← as_optional_number (member "year" ms);
      c ← as_optional_string (member "cover" ms);
      w ← as_optional_string (member "work" ms);
      Some (mkSaved k t a y c w)
  | _ => None
  end.

Definition as_SaveSet (j : json) : option SaveSet :=
  match j with
  | JObj ms =>
      foldl (λ acc p, m ← acc; e ← as_entry p.2; Some (<[p.1 := e]> m))
        (Some ∅) ms
  | _ => None
  end.

(** [JSON.parse] read at the type of save-sets. Text that is JSON but no
    save-set has no value of that type. *)
Definition SaveSet_json : Json SaveSet :=
  λ s,
    match read_json s with
    | None => Throw SyntaxError
    | Some j =>
        match as_SaveSet j with
        | Some m => Ok m
        | None => Throw (TypeError "not a save-set")
        end
    end.

Definition hex_digit (n : N) : ascii :=
  if (n <? 10)%N then ascii_of_N (48 + n) else ascii_of_N (87 + n).

Definition escape_char (c : ascii) : string :=
  let n := N_of_ascii c in
  if Ascii.eqb c dquote then String backslash (String dquote "")
  else if Ascii.eqb c backslash then String backslash (String backslash "")
  else if (n =? 8)%N then String backslash "b"
  else if (n =? 9)%N then String backslash "t"
  else if (n =? 10)%N then String backslash "n"
  else if (n =? 12)%N then String backslash "f"
  else if (n =? 13)%N then String backslash "r"
  else if (n <? 32)%N then
    String backslash
      (String "u" (String "0" (String "0"
         (String (hex_digit (n / 16)) (String (hex_digit (n mod 16)) "")))))
  else String c "".

Fixpoint escape (s : string) : string :=
  match s with
  | "" => ""
  | String c s' => escape_char c ++ escape s'
  end.

Definition quote (s : string) : string :=
  String dquote (escape s ++ String dquote "").

(** A member whose value is [undefined] is left out. *)
Definition print_member (name : string) (v : option string) : list string :=
  match v with
  | Some p => [quote name ++ ":" ++ p]
  | None => []
  end.

Definition print_optional {B} (f : B → string) (v : jsval B) : option string :=
  match v with
  | Undefined => None
  | Null => Some "null"
  | Val a => Some (f a)
  end.

Definition print_entry (e : SavedEntry) : string :=
  "{"
  ++ Array_join ","
       (concat
          [print_member "key" (Some (quote (e_key e)));
           print_member "title" (print_optional quote (e_title e));
           print_member "author" (Some (quote (e_author e)));
           print_member "year" (print_optional toString (e_year e));
           print_member "cover" (print_optional quote (e_cover e));
           print_member "work" (print_optional quote (e_work e))])
  ++ "}".

(** [JSON.stringify] of a save-set. The members come in the order the map
    lists them, which reading does not depend on. *)
Definition print_SaveSet (m : SaveSet) : string :=
  "{"
  ++ Array_join ","
       ((λ p, quote p.1 ++ ":" ++ print_entry p.2) <$> map_to_list m)
  ++ "}".

Definition SaveSet_stringify : JsonStringify SaveSet :=
  λ m, Ok (print_SaveSet m).

(** Two saved documents, one with every field and one with few. *)
Definition two_saved : SaveSet :=
  toggleSave_next dune_a (toggleSave_next dune ∅).

(** ** Vocabulary of the properties *)

(** [c] is the ceiling of the quotient [a / b], for a positive [b]. *)
Definition is_ceiling (a b c : Z) : Prop := b * (c - 1) < a ≤ b * c.

(** The query parameters a search for page [pg] is expected to carry. *)
Definition search_params (r : State) (pg : Z) : list (string * string) :=
  [("title", trim (query r))]
  ++ (if decide (trim (author r) = "") then []
      else [("author", trim (author r))])
  ++ [("page", toString pg); ("limit", "20")].

Definition search_url (r : State) (pageOverride : jsval Z) : URL :=
  mkURL "https://openlibrary.org/search.json"
    (search_params r (pageOverride ||: page r)).

(** A search fails when [fetch] rejects, the status is not 2xx, or the
    body does not parse. *)
Definition failed (o : FetchOutcome) : Prop :=
  match o with
  | NetworkFailure => True
  | Response status body => ¬ (200 ≤ status ≤ 299) ∨ body = BodyInvalid
  end.

Definition generic_message : string :=
  "Something went wrong. There was a network or API error.".

(** A title made of white space only (or of nothing). *)
Fixpoint blank (s : string) : bool :=
  match s with
  | "" => true
  | String c s' => is_white_space c && blank s'
  end.

(** The render [r] with another sort selected, as [setSort] leaves it. *)
Definition with_sort (v : string) (r : State) : State :=
  mkState (query r) (author r) v (page r) (loading r) (error r)
    (docs r) (numFound r) (selected r) (saved r).

(** A render in which the user typed a title and an author. *)
Definition typed (t a : string) : State :=
  mkState t a "relevance" 1 false "" [] 0 Null ∅.

(** [x] brought into the interval from [lo] to [hi]. *)
Definition clamp (lo hi x : Z) : Z :=
  if x <? lo then lo else if hi <? x then hi else x.

(** The composite of a document's title and first publish year. *)
Definition title_year (doc : Doc) : string :=
  toString (title doc) ++ "-"
  ++ match first_publish_year doc with
     | Val y => if decide (y = 0) then "" else toString y
     | _ => ""
     end.

(** A world whose save-set is [S]. *)
Definition world_saving (S : SaveSet) : World :=
  world0 (mkState "" "" "relevance" 1 false "" [] 0 Null S).

(** Nothing can be loaded from slot [k]: reading the storage is denied,
    the slot is absent or holds the empty string, or what it holds does not
    parse. *)
Definition nothing_to_load {A} `{Json A} (st : Storage) (k : string) : Prop :=
  denied st = true
  ∨ items st !! k = None
  ∨ items st !! k = Some ""
  ∨ ∃ raw e, items st !! k = Some raw ∧ (JSON_parse raw : Exc A) = Throw e.

(** The sort keys, with a missing year read as 0 and a missing title as
    the empty string. *)
Definition year_or_0 (doc : Doc) : Z :=
  match first_publish_year doc with Val y => y | _ => 0 end.

Definition title_or_empty (doc : Doc) : string :=
  match title doc with Val t => t | _ => "" end.

(** Whether a string holds a hyphen, as every title-year composite does. *)
Fixpoint has_hyphen (s : string) : bool :=
  match s with
  | "" => false
  | String c s' => Ascii.eqb c "-" || has_hyphen s'
  end.

(** A document whose key names a member every object inherits. *)
Definition constructor_doc : Doc :=
  mkDoc (Val "constructor") Undefined (Val "Dune") (Val 1965)
    Undefined (Val ["Frank Herbert"]) Undefined.

(** Every entry of the save-set records the key it is stored under. *)
Definition keys_consistent (S : SaveSet) : Prop :=
  ∀ k e, S !! k = Some e → e_key e = k.

(** A field of a saved entry that the saved list can test with [&&]: it is
    [null], or a value that is truthy. *)
Definition null_or_truthy {A} `{Truthy A} (v : jsval A) : Prop :=
  v = Null ∨ ∃ a, v = Val a ∧ truthy a = true.

(** * Properties *)

(** ** [Array.prototype.sort] *)

Section sorting.
Context {A : Type} (cmp : A → A → Z).

Lemma sort_insert_perm x l : sort_insert cmp x l ≡ₚ x :: l.
Proof.
  induction l as [|y l IH]; simpl; [done|].
  destruct (cmp x y <=? 0); [done|].
  rewrite IH. apply Permutation_swap.
Qed.

Lemma Array_sort_perm l : Array_sort cmp l ≡ₚ l.
Proof.
  induction l as [|x l IH]; simpl; [done|].
  by rewrite sort_insert_perm, IH.
Qed.

(** On a list that is already in order the sort changes nothing: it is
    stable, and nothing has to move. *)
Lemma sort_insert_head x l :
  Forall (cmp_le cmp x) l → sort_insert cmp x l = x :: l.
Proof.
  destruct l as [|y l]; simpl; [done|].
  intros Hall. apply Forall_cons_1 in Hall as [Hxy _].
  unfold cmp_le in Hxy. by destruct (Z.leb_spec (cmp x y) 0); [|lia].
Qed.

Lemma Array_sort_sorted_id l :
  StronglySorted (cmp_le cmp) l → Array_sort cmp l = l.
Proof.
  induction 1 as [|x l Hs IH Hall]; simpl; [done|].
  fold (Array_sort cmp l). rewrite IH. by apply sort_insert_head.
Qed.

Hypothesis cmp_total : ∀ a b, cmp_le cmp a b ∨ cmp_le cmp b a.
Hypothesis cmp_trans : ∀ a b c, cmp_le cmp a b → cmp_le cmp b c → cmp_le cmp a c.

Lemma sort_insert_sorted x l :
  StronglySorted (cmp_le cmp) l → StronglySorted (cmp_le cmp) (sort_insert cmp x l).
Proof.
  induction 1 as [|y l Hs IH Hall]; simpl.
  - repeat constructor.
  - destruct (Z.leb_spec (cmp x y) 0) as [Hxy|Hxy].
    + constructor; [by constructor|].
      constructor; [done|].
      eapply Forall_impl; [exact Hall|]. intros z Hyz. by eapply cmp_trans.
    + constructor; [done|].
      rewrite sort_insert_perm. constructor; [|done].
      destruct (cmp_total x y) as [H|H]; [unfold cmp_le in H; lia|done].
Qed.

Lemma Array_sort_sorted l : StronglySorted (cmp_le cmp) (Array_sort cmp l).
Proof.
  induction l as [|x l IH]; simpl; [constructor|].
  by apply sort_insert_sorted.
Qed.

Lemma Array_sort_idemp l :
  Array_sort cmp (Array_sort cmp l) = Array_sort cmp l.
Proof. apply Array_sort_sorted_id, Array_sort_sorted. Qed.

(** The sort is stable: elements that tie come out in the order they came
    in. *)
Lemma sort_insert_stable z x l :
  filter (cmp_tie cmp z) (sort_insert cmp x l)
  = filter (cmp_tie cmp z) (x :: l).
Proof.
  induction l as [|y l IH]; simpl; [done|].
  destruct (Z.leb_spec (cmp x y) 0) as [Hxy|Hxy]; [done|].
  rewrite filter_cons, IH, !filter_cons.
  destruct (decide (cmp_tie cmp z y)) as [[Hzy _]|]; [|done].
  destruct (decide (cmp_tie cmp z x)) as [[_ Hxz]|]; [|done].
  pose proof (cmp_trans x z y Hxz Hzy) as Hle. unfold cmp_le in Hle. lia.
Qed.

Lemma Array_sort_stable z l :
  filter (cmp_tie cmp z) (Array_sort cmp l) = filter (cmp_tie cmp z) l.
Proof.
  induction l as [|x l IH]; simpl; [done|].
  fold (Array_sort cmp l). by rewrite sort_insert_stable, !filter_cons, IH.
Qed.

End sorting.

(** ** [searchBooks] *)

Lemma nonempty_truthy s : s ≠ "" → truthy s = true.
Proof. by destruct s. Qed.

Lemma search_url_built r po :
  searchParams_set "limit" (toString LIMIT)
    (searchParams_set "page" (toString (po ||: page r))
       (if truthy (trim (author r))
        then searchParams_set "author" (trim (author r))
               (searchParams_set "title" (trim (query r))
                  (new_URL "https://openlibrary.org/search.json"))
        else searchParams_set "title" (trim (query r))
               (new_URL "https://openlibrary.org/search.json")))
  = search_url r po.
Proof.
  unfold search_url, search_params.
  destruct (trim (author r)) as [|c a] eqn:Ha; simpl; [done|].
  by destruct (decide (String c a = "")).
Qed.

(** A blank title: nothing is sent and nothing changes. *)
Lemma searchBooks_blank net r po w :
  trim (query r) = "" → searchBooks net r po w = (Ok (), w).
Proof. intros Hq. unfold searchBooks. by rewrite Hq. Qed.

(** Otherwise exactly one request is sent, and the handler returns
    normally with the loading flag down. *)
Lemma searchBooks_sent net r po w :
  trim (query r) ≠ "" →
  ∃ s', searchBooks net r po w
        = (Ok (), mkWorld s' (sent w ++ [search_url r po]) (scrollTop w))
        ∧ loading s' = false
        ∧ page s' = page (app w)
        ∧ saved s' = saved (app w)
        ∧ match net (search_url r po) with
          | NetworkFailure => error s' = generic_message
              ∧ docs s' = docs (app w) ∧ numFound s' = numFound (app w)
          | Response status body =>
              if res_ok status then
                match body with
                | BodyInvalid => error s' = generic_message
                    ∧ docs s' = docs (app w) ∧ numFound s' = numFound (app w)
                | BodyJson d n => error s' = ""
                    ∧ docs s' = d ||: [] ∧ numFound s' = n ||: 0
                end
              else error s' = generic_message
                ∧ docs s' = docs (app w) ∧ numFound s' = numFound (app w)
          end.
Proof.
  intros Hq. unfold searchBooks.
  rewrite (nonempty_truthy _ Hq). cbn [negb].
  rewrite search_url_built.
  unfold M_finally, M_try_catch, mbind, M_bind, fetch, setLoading, setError,
    setDocs, setNumFound, modify, throw, res_json, mret, M_ret.
  cbn [app sent scrollTop].
  destruct (net (search_url r po)) as [|status body]; cbn.
  { eexists; split; [reflexivity|]. by cbn. }
  destruct (res_ok status); cbn.
  2:{ eexists; split; [reflexivity|]. by cbn. }
  destruct body as [|d n]; cbn.
  all: eexists; split; [reflexivity|]; by cbn.
Qed.

(** ** Blank titles *)

Lemma trimStart_blank s : blank s = true → trimStart s = "".
Proof.
  induction s as [|c s IH]; simpl; [done|].
  destruct (is_white_space c); simpl; [exact IH|done].
Qed.

Lemma trim_blank s : blank s = true → trim s = "".
Proof. intros H. unfold trim. by rewrite trimStart_blank. Qed.

Lemma trimStart_empty s : trimStart s = "" → blank s = true.
Proof.
  induction s as [|c s IH]; simpl; [done|].
  destruct (is_white_space c); simpl; [exact IH|done].
Qed.

Lemma trimEnd_empty s : trimEnd s = "" → blank s = true.
Proof.
  induction s as [|c s IH]; simpl; [done|].
  destruct (trimEnd s); [|done].
  destruct (is_white_space c); [|done]. intros _. by apply IH.
Qed.

Lemma trimStart_head s c t : trimStart s = String c t → is_white_space c = false.
Proof.
  induction s as [|d s IH]; simpl; [done|].
  destruct (is_white_space d) eqn:Hd; [exact IH|]. by intros [= <- _].
Qed.

(** [trim] gives the empty string on blank titles and on no others. *)
Lemma trim_empty_iff s : trim s = "" ↔ blank s = true.
Proof.
  split; [|apply trim_blank].
  unfold trim. intros H. apply trimEnd_empty in H.
  destruct (trimStart s) as [|c t] eqn:Hs; [by apply trimStart_empty|].
  apply trimStart_head in Hs. simpl in H. by rewrite Hs in H.
Qed.

(** C9. A title that is empty or white space only trims to the empty
    string, and [searchBooks] then returns at once: no request is sent and
    the state (loading flag, error message, documents, result count and
    everything else) is the one it started from. *)
Theorem C9_blank_title_is_ignored net r pageOverride w :
  blank (query r) = true →
  trim (query r) = ""
  ∧ searchBooks net r pageOverride w = (Ok (), w).
Proof.
  intros Hb. apply trim_blank in Hb. split; [done|].
  by apply searchBooks_blank.
Qed.

Lemma C9_blank_title_is_ignored_witness :
  searchBooks (λ _, NetworkFailure) (typed "   " "Herbert") (Val 1)
    (world0 state0)
  = (Ok (), world0 state0).
Proof.
  exact (proj2 (C9_blank_title_is_ignored (λ _, NetworkFailure)
                  (typed "   " "Herbert") (Val 1) (world0 state0) eq_refl)).
Defined.

(** C8. A search with a non-blank title sends exactly one request, to the
    fixed endpoint, whose query parameters are, in order: [title] with the
    trimmed title; [author] with the trimmed author, present only when that
    is not empty; [page]; and [limit] with 20. No parameter is named
    [sort], and the request does not depend on the sort selected. *)
Theorem C8_request_parameters net r pageOverride w :
  trim (query r) ≠ "" →
  ∃ u, sent (searchBooks net r pageOverride w).2 = (sent w ++ [u])%list
    ∧ endpoint u = "https://openlibrary.org/search.json"
    ∧ searchParams u
      = ([("title", trim (query r))]
         ++ (if decide (trim (author r) = "") then []
             else [("author", trim (author r))])
         ++ [("page", toString (pageOverride ||: page r)); ("limit", "20")])%list
    ∧ (∀ v, ("sort", v) ∉ searchParams u)
    ∧ (∀ v, sent (searchBooks net (with_sort v r) pageOverride w).2
            = (sent w ++ [u])%list).
Proof.
  intros Hq.
  destruct (searchBooks_sent net r pageOverride w Hq) as (s' & Hrun & _).
  exists (search_url r pageOverride). rewrite Hrun.
  split; [done|]. split; [done|]. split; [done|]. split.
  - intros v. unfold search_url, search_params. cbn [searchParams].
    destruct (decide (trim (author r) = "")); cbn;
      repeat (apply not_elem_of_cons; split; [discriminate|]);
      apply not_elem_of_nil.
  - intros v.
    destruct (searchBooks_sent net (with_sort v r) pageOverride w Hq)
      as (s'' & Hrun' & _).
    by rewrite Hrun'.
Qed.

(** Searching "Dune" with the author field empty asks for
    [title=Dune&page=1&limit=20]. *)
Lemma C8_request_parameters_witness :
  ∃ u, sent (searchBooks (λ _, NetworkFailure) (typed "Dune" "") (Val 1)
               (world0 state0)).2 = ([] ++ [u])%list
    ∧ endpoint u = "https://openlibrary.org/search.json"
    ∧ searchParams u
      = ([("title", "Dune")] ++ [] ++ [("page", "1"); ("limit", "20")])%list
    ∧ (∀ v, ("sort", v) ∉ searchParams u)
    ∧ (∀ v, sent (searchBooks (λ _, NetworkFailure)
                    (with_sort v (typed "Dune" "")) (Val 1)
                    (world0 state0)).2 = ([] ++ [u])%list).
Proof.
  apply (C8_request_parameters (λ _, NetworkFailure) (typed "Dune" "") (Val 1)
           (world0 state0)).
  vm_compute. discriminate.
Defined.

(** C7. When a search fails, whatever the cause (the request is rejected,
    the status is not 2xx, or the body does not parse), the same message
    is set and the documents and the result count stay as they were; when
    it succeeds, both are replaced by what the response holds, a missing
    member counting as no documents and as zero. *)
Theorem C7_failure_keeps_results net r pageOverride w :
  trim (query r) ≠ "" →
  let o := net (search_url r pageOverride) in
  let s' := app (searchBooks net r pageOverride w).2 in
  (failed o →
     error s' = "Something went wrong. There was a network or API error."
     ∧ docs s' = docs (app w)
     ∧ numFound s' = numFound (app w))
  ∧ (∀ status ds n,
       o = Response status (BodyJson ds n) → 200 ≤ status ≤ 299 →
       error s' = ""
       ∧ docs s' = match ds with Val l => l | _ => [] end
       ∧ numFound s' = match n with Val k => k | _ => 0 end).
Proof.
  intros Hq o s'.
  destruct (searchBooks_sent net r pageOverride w Hq)
    as (s1 & Hrun & _ & _ & _ & Hcases).
  subst s'. rewrite Hrun. cbn [snd app]. fold o in Hcases.
  split.
  - intros Hfail. destruct o as [|status body]; [done|].
    unfold res_ok in Hcases.
    destruct Hfail as [Hst| ->].
    + destruct (Z.leb_spec 200 status), (Z.leb_spec status 299);
        cbn in Hcases; first [done | lia].
    + by destruct (_ && _).
  - intros status ds n -> [Hlo Hhi].
    unfold res_ok in Hcases.
    apply Z.leb_le in Hlo, Hhi. rewrite Hlo, Hhi in Hcases. cbn in Hcases.
    destruct Hcases as (-> & -> & ->). split; [done|].
    split; [by destruct ds | ].
    destruct n as [| |k]; cbn; try done.
    unfold truthy, truthy_number. destruct (Z.eqb_spec k 0); cbn; congruence.
Qed.

Lemma C7_failure_keeps_results_witness :
  let net : Network := λ _, Response 503 BodyInvalid in
  let w := mkWorld (mkState "Dune" "" "relevance" 1 false "" [dune] 45 Null ∅)
             [] 0 in
  let s' := app (searchBooks net (app w) (Val 2) w).2 in
  error s' = "Something went wrong. There was a network or API error."
  ∧ docs s' = [dune]
  ∧ numFound s' = 45.
Proof.
  intros net w.
  refine (proj1 (C7_failure_keeps_results net (app w) (Val 2) w _) _).
  - vm_compute. discriminate.
  - left. vm_compute. intros [_ H]. by apply H.
Defined.

(** ** Pages *)

Lemma Math_ceil_div_is_ceiling a b :
  0 < b → is_ceiling a b (Math_ceil_div a b).
Proof.
  intros Hb. destruct b as [|q|q]; try lia.
  unfold is_ceiling, Math_ceil_div, Qceiling, Qfloor. cbn.
  rewrite Z.mul_1_r, Pos.mul_1_l.
  pose proof (Z.mul_div_le (- a) (Z.pos q) ltac:(lia)).
  pose proof (Z.mul_succ_div_gt (- a) (Z.pos q) ltac:(lia)).
  lia.
Qed.

Lemma totalPages_ge_1 n : 1 ≤ totalPages n.
Proof. unfold totalPages. lia. Qed.

(** The page [gotoPage] sets, and the request it sends if any. *)
Lemma gotoPage_run net r p w :
  let clamped := Z.min (Z.max 1 p) (totalPages (numFound r)) in
  let w' := (gotoPage net r p w).2 in
  page (app w') = clamped
  ∧ scrollTop w' = 0
  ∧ (if decide (trim (query r) = "") then sent w' = sent w
     else sent w' = (sent w ++ [search_url r (Val clamped)])%list).
Proof.
  intros clamped w'. subst w'.
  cbv [gotoPage mbind M_bind setPage modify]. fold clamped.
  destruct (decide (trim (query r) = "")) as [Hq|Hq].
  - rewrite (searchBooks_blank net r (Val clamped) _ Hq). by cbn.
  - edestruct (searchBooks_sent net r (Val clamped)) as (s' & -> & _ & Hp & _);
      [exact Hq|].
    cbn in *. by rewrite Hp.
Qed.

(** Submitting the form goes back to page 1 and asks for page 1. *)
Lemma onSubmit_run net r w :
  trim (query r) ≠ "" →
  page (app (onSubmit net r w).2) = 1
  ∧ sent (onSubmit net r w).2 = (sent w ++ [search_url r (Val 1)])%list.
Proof.
  intros Hq. cbv [onSubmit mbind M_bind setPage modify].
  edestruct (searchBooks_sent net r (Val 1)) as (s' & -> & _ & Hp & _);
    [exact Hq|].
  cbn in *. by rewrite Hp.
Qed.

(** C1. With the page size fixed at 20, the page count is the larger of 1
    and the ceiling of the result count over the page size, so it is at
    least 1; and [gotoPage p] sets the current page to [p] clamped into the
    interval from 1 to the page count, and asks for that page if it sends a
    request at all. *)
Theorem C1_page_count_and_clamp net r p w n :
  LIMIT = 20
  ∧ (∃ c, is_ceiling n LIMIT c ∧ totalPages n = Z.max 1 c)
  ∧ 1 ≤ totalPages n
  ∧ let t := totalPages (numFound r) in
    let w' := (gotoPage net r p w).2 in
    page (app w') = clamp 1 t p
    ∧ 1 ≤ page (app w') ≤ t
    ∧ (sent w' = sent w
       ∨ ∃ u, sent w' = (sent w ++ [u])%list
           ∧ ("page", toString (page (app w'))) ∈ searchParams u).
Proof.
  split; [done|]. split.
  { exists (Math_ceil_div n LIMIT). split; [|done].
    by apply Math_ceil_div_is_ceiling. }
  split; [apply totalPages_ge_1|].
  intros t w'.
  destruct (gotoPage_run net r p w) as (Hpage & _ & Hsent).
  fold t in Hpage, Hsent. fold w' in Hpage, Hsent.
  pose proof (totalPages_ge_1 (numFound r)) as Ht. fold t in Ht.
  assert (Hc : Z.min (Z.max 1 p) t = clamp 1 t p).
  { unfold clamp.
    destruct (Z.ltb_spec p 1); [lia|]. destruct (Z.ltb_spec t p); lia. }
  rewrite Hpage, Hc. split; [done|]. split.
  { rewrite <- Hc. lia. }
  destruct (decide (trim (query r) = "")) as [Hq|Hq]; [by left|right].
  eexists. split; [exact Hsent|].
  rewrite Hc. unfold search_url, search_params. cbn [searchParams].
  destruct (decide (trim (author r) = "")); cbn.
  - rewrite !elem_of_cons. right. left.
    do 2 f_equal. unfold or_else, truthy, truthy_number.
    by destruct (_ =? _)%Z eqn:E; [apply Z.eqb_eq in E; lia|].
  - rewrite !elem_of_cons. right. right. left.
    do 2 f_equal. unfold or_else, truthy, truthy_number.
    by destruct (_ =? _)%Z eqn:E; [apply Z.eqb_eq in E; lia|].
Qed.

(** 45 results make 3 pages, and asking for page 5 lands on page 3. *)
Example pages_of_45 :
  totalPages 45 = 3
  ∧ page (app (gotoPage (λ _, NetworkFailure)
                 (mkState "Dune" "" "relevance" 1 false "" [] 45 Null ∅) 5
                 (world0 state0)).2) = 3.
Proof. by vm_compute. Qed.

(** ** The save-set *)

Lemma toggleSave_run doc w :
  toggleSave doc w
  = (Ok (),
     mkWorld
       (mkState (query (app w)) (author (app w)) (sort (app w)) (page (app w))
          (loading (app w)) (error (app w)) (docs (app w)) (numFound (app w))
          (selected (app w)) (toggleSave_next doc (saved (app w))))
       (sent w) (scrollTop w)).
Proof. reflexivity. Qed.

Lemma toggleSave_saved doc w :
  saved (app (toggleSave doc w).2) = toggleSave_next doc (saved (app w)).
Proof. reflexivity. Qed.

Lemma toggleSave_twice_saved doc w :
  saved (app ((toggleSave doc;; toggleSave doc) w).2)
  = toggleSave_next doc (toggleSave_next doc (saved (app w))).
Proof. reflexivity. Qed.

Lemma toggleSave_next_absent doc (S : SaveSet) :
  S !! toBookKey doc = None →
  inherits (toBookKey doc) = false →
  toggleSave_next doc S = <[toBookKey doc := new_entry (toBookKey doc) doc]> S.
Proof.
  intros H Hi. unfold toggleSave_next, truthy_at. rewrite H, Hi.
  by rewrite bool_decide_eq_false_2 by (by intros [? ?]).
Qed.

Lemma toggleSave_next_present doc (S : SaveSet) e :
  S !! toBookKey doc = Some e →
  toggleSave_next doc S = delete (toBookKey doc) S.
Proof.
  intros H. unfold toggleSave_next, truthy_at. rewrite H.
  by rewrite bool_decide_eq_true_2 by eauto.
Qed.

(** Under a key that names an inherited member nothing is ever stored: the
    toggle removes the own entry if there is one and is idle otherwise. *)
Lemma toggleSave_next_inherited doc (S : SaveSet) :
  inherits (toBookKey doc) = true →
  toggleSave_next doc S = delete (toBookKey doc) S.
Proof.
  intros Hi. unfold toggleSave_next, truthy_at. rewrite Hi.
  by rewrite orb_true_r.
Qed.

Lemma toggleSave_next_cases doc (S : SaveSet) :
  toggleSave_next doc S = delete (toBookKey doc) S
  ∨ toggleSave_next doc S
    = <[toBookKey doc := new_entry (toBookKey doc) doc]> S.
Proof. unfold toggleSave_next. destruct (truthy_at _ _); auto. Qed.

Lemma toggleSave_next_other doc (S : SaveSet) k :
  k ≠ toBookKey doc → toggleSave_next doc S !! k = S !! k.
Proof.
  intros Hk. destruct (toggleSave_next_cases doc S) as [-> | ->].
  - by rewrite lookup_delete_ne.
  - by rewrite lookup_insert_ne.
Qed.

Lemma has_hyphen_app (s1 s2 : string) :
  has_hyphen (s1 ++ s2) = has_hyphen s1 || has_hyphen s2.
Proof.
  induction s1 as [|c s1 IH]; simpl; [done|].
  by rewrite IH, orb_assoc.
Qed.

Lemma inherits_no_hyphen k : inherits k = true → has_hyphen k = false.
Proof.
  unfold inherits, Object_prototype. intros H.
  apply bool_decide_eq_true_1 in H.
  repeat (apply elem_of_cons in H as [-> | H]; [done|]).
  by apply elem_of_nil in H.
Qed.

(** No title-year composite names an inherited member. *)
Lemma title_year_not_inherited doc : inherits (title_year doc) = false.
Proof.
  destruct (inherits (title_year doc)) eqn:Hi; [|done].
  apply inherits_no_hyphen in Hi. unfold title_year in Hi.
  rewrite !has_hyphen_app in Hi. cbn in Hi.
  by rewrite orb_true_r in Hi.
Qed.

(** Two toggles: the key is removed and put back, or put and removed. *)
Lemma toggleSave_next_twice doc (S : SaveSet) :
  inherits (toBookKey doc) = false →
  toggleSave_next doc (toggleSave_next doc S)
  = match S !! toBookKey doc with
    | Some _ => <[toBookKey doc := new_entry (toBookKey doc) doc]> S
    | None => S
    end.
Proof.
  intros Hi. destruct (S !! toBookKey doc) as [e|] eqn:HS.
  - rewrite (toggleSave_next_present _ _ _ HS).
    rewrite toggleSave_next_absent by (done || apply lookup_delete_eq).
    apply insert_delete_eq.
  - rewrite (toggleSave_next_absent _ _ HS Hi).
    erewrite toggleSave_next_present by apply lookup_insert_eq.
    rewrite delete_insert_eq. by apply delete_id.
Qed.

Lemma title_year_template doc :
  toString (title doc) ++ "-"
  ++ (if truthy (first_publish_year doc)
      then toString (first_publish_year doc) else "")
  = title_year doc.
Proof.
  unfold title_year. do 2 f_equal.
  destruct (first_publish_year doc) as [| |y]; try done.
  unfold truthy, truthy_jsval, truthy, truthy_number.
  destruct (decide (y = 0)) as [->|Hy]; [done|].
  by destruct (Z.eqb_spec y 0).
Qed.

Lemma toBookKey_cases doc :
  truthy (key doc) = true ∧ key doc = Val (toBookKey doc)
  ∨ truthy (key doc) = false
    ∧ truthy (cover_edition_key doc) = true
    ∧ cover_edition_key doc = Val (toBookKey doc)
  ∨ truthy (key doc) = false
    ∧ truthy (cover_edition_key doc) = false
    ∧ toBookKey doc = title_year doc.
Proof.
  unfold toBookKey. rewrite title_year_template.
  destruct (key doc) as [| |k] eqn:Hk;
    [right; destruct (cover_edition_key doc) as [| |c] eqn:Hc ..|].
  1,2,4,5: by right.
  1,2: destruct c as [|a c]; [by right|by left].
  destruct k as [|a k]; [right|by left].
  destruct (cover_edition_key doc) as [| |c] eqn:Hc; [by right..|].
  destruct c as [|b c]; [by right|by left].
Qed.

(** C2, as the code has it. The key is the record's own [key] when that is
    present and not empty; failing that, its [cover_edition_key] when that
    is present and not empty; and only then the composite of title and
    first publish year. Toggling stores a document that is not yet saved
    under exactly that key, provided the key names no member that every
    object inherits; the composite never does, so a document lacking both
    identifiers and not yet saved is always stored under the composite. *)
Theorem C2_stable_key doc (S : SaveSet) :
  (truthy (key doc) = true ∧ key doc = Val (toBookKey doc)
   ∨ truthy (key doc) = false
     ∧ truthy (cover_edition_key doc) = true
     ∧ cover_edition_key doc = Val (toBookKey doc)
   ∨ truthy (key doc) = false
     ∧ truthy (cover_edition_key doc) = false
     ∧ toBookKey doc = title_year doc)
  ∧ (inherits (toBookKey doc) = false →
     match S !! toBookKey doc with
     | Some _ => toggleSave_next doc S !! toBookKey doc = None
     | None =>
         ∃ e, toggleSave_next doc S !! toBookKey doc = Some e
            ∧ e_key e = toBookKey doc
            ∧ dom (toggleSave_next doc S) = {[toBookKey doc]} ∪ dom S
     end)
  ∧ (truthy (key doc) = false →
     truthy (cover_edition_key doc) = false →
     S !! title_year doc = None →
     ∃ e, toggleSave_next doc S !! title_year doc = Some e
        ∧ e_key e = title_year doc).
Proof.
  split; [apply toBookKey_cases|]. split.
  - intros Hi. destruct (S !! toBookKey doc) as [e|] eqn:HS.
    + rewrite (toggleSave_next_present _ _ _ HS). apply lookup_delete_eq.
    + rewrite (toggleSave_next_absent _ _ HS Hi).
      eexists. split; [apply lookup_insert_eq|]. split; [done|].
      apply dom_insert_L.
  - intros Hk Hc HS.
    destruct (toBookKey_cases doc) as [[Hk' _]|[(_ & Hc' & _)|(_ & _ & Hty)]];
      [congruence..|].
    pose proof (title_year_not_inherited doc) as Hi.
    rewrite <- Hty in HS, Hi |- *.
    rewrite (toggleSave_next_absent _ _ HS Hi).
    eexists. split; [apply lookup_insert_eq|done].
Qed.

(** A document lacking both identifiers is stored under its composite. *)
Lemma C2_stable_key_witness :
  ∃ e, toggleSave_next dune_a ∅ !! title_year dune_a = Some e
     ∧ e_key e = title_year dune_a.
Proof.
  by apply (proj2 (proj2 (C2_stable_key dune_a ∅))).
Defined.

(** A record with no work key but an edition key is saved under the
    edition key, not under "Dune-1965". *)
Lemma C2_edition_key_comes_first :
  key dune_edition = Undefined
  ∧ title_year dune_edition = "Dune-1965"
  ∧ toBookKey dune_edition = "OL26242482M"
  ∧ toBookKey dune_edition ≠ title_year dune_edition
  ∧ saved (app (toggleSave dune_edition (world_saving ∅)).2)
      !! title_year dune_edition = None.
Proof. repeat split; by vm_compute. Qed.

(** C3, as the code has it. For a document whose key names no member
    that every object inherits, two toggles leave the set of keys as it was
    and touch no entry under another key; the entry under the document's
    own key, if there was one, is now the one built from the document. So
    the save-set is back to what it was exactly when the key was not in it
    or its entry was already the one the document gives. *)
Theorem C3_toggle_twice doc w :
  inherits (toBookKey doc) = false →
  let S := saved (app w) in
  let S2 := saved (app ((toggleSave doc;; toggleSave doc) w).2) in
  let k := toBookKey doc in
  S2 = match S !! k with
       | Some _ => <[k := new_entry k doc]> S
       | None => S
       end
  ∧ dom S2 = dom S
  ∧ (∀ k', k' ≠ k → S2 !! k' = S !! k')
  ∧ (S2 = S ↔ S !! k = None ∨ S !! k = Some (new_entry k doc)).
Proof.
  intros Hi S S2 k. subst S2. rewrite toggleSave_twice_saved. fold S.
  split; [by apply toggleSave_next_twice|].
  assert (Hother : ∀ k', k' ≠ k →
    toggleSave_next doc (toggleSave_next doc S) !! k' = S !! k').
  { intros k' Hk'. by rewrite !toggleSave_next_other. }
  rewrite (toggleSave_next_twice _ _ Hi). fold k.
  destruct (S !! k) as [e|] eqn:HS.
  - split.
    + rewrite dom_insert_L. apply elem_of_dom_2 in HS.
      by apply subseteq_union_1_L, singleton_subseteq_l.
    + split.
      * intros k' Hk'. by rewrite lookup_insert_ne.
      * split.
        -- intros Heq. right. rewrite <- Heq in HS.
           rewrite lookup_insert_eq in HS. by rewrite <- HS.
        -- intros [?|[= ->]]; [done|]. by apply insert_id.
  - split; [done|]. split; [done|]. split; [by left|done].
Qed.

Lemma C3_toggle_twice_witness :
  let w := (toggleSave dune_a (world_saving ∅)).2 in
  let S := saved (app w) in
  let S2 := saved (app ((toggleSave dune_b;; toggleSave dune_b) w).2) in
  let k := toBookKey dune_b in
  S2 = match S !! k with
       | Some _ => <[k := new_entry k dune_b]> S
       | None => S
       end
  ∧ dom S2 = dom S
  ∧ (∀ k', k' ≠ k → S2 !! k' = S !! k')
  ∧ (S2 = S ↔ S !! k = None ∨ S !! k = Some (new_entry k dune_b)).
Proof.
  intros w.
  apply (C3_toggle_twice dune_b w). reflexivity.
Defined.

(** Under a key that names an inherited member the code stores nothing:
    a document keyed "constructor" is never saved, and an own entry under
    that key (from storage) is removed by the first toggle for good. *)
Example toggle_on_inherited_key :
  toBookKey constructor_doc = "constructor"
  ∧ inherits "constructor" = true
  ∧ saved (app (toggleSave constructor_doc (world_saving ∅)).2) = ∅
  ∧ saved (app ((toggleSave constructor_doc;; toggleSave constructor_doc)
                  (world_saving
                     {["constructor" := new_entry "constructor" dune]})).2)
    = ∅.
Proof. by vm_compute. Qed.

(** Two records that share the key "Dune-1965" but not the author: with
    the first saved, toggling the second twice leaves the second's entry. *)
Lemma C3_toggle_twice_changes_entry :
  let w := (toggleSave dune_a (world_saving ∅)).2 in
  saved (app ((toggleSave dune_b;; toggleSave dune_b) w).2) ≠ saved (app w)
  ∧ e_author <$> saved (app w) !! "Dune-1965" = Some "Frank Herbert"
  ∧ e_author <$> saved (app ((toggleSave dune_b;; toggleSave dune_b) w).2)
                   !! "Dune-1965" = Some "F. Herbert".
Proof.
  intros w. split; [|split; by vm_compute].
  intros Heq. apply (f_equal (λ m : SaveSet, e_author <$> m !! "Dune-1965")) in Heq.
  vm_compute in Heq. discriminate.
Qed.

(** C10. A toggle leaves every entry under another key as it was: there
    before exactly when it is there after, and with the same fields. *)
Theorem C10_toggle_frame doc w k :
  k ≠ toBookKey doc →
  saved (app (toggleSave doc w).2) !! k = saved (app w) !! k.
Proof. intros Hk. rewrite toggleSave_saved. by apply toggleSave_next_other. Qed.

Lemma C10_toggle_frame_witness :
  let w := (toggleSave dune (world_saving ∅)).2 in
  saved (app (toggleSave emma w).2) !! "/works/OL893415W"
  = saved (app w) !! "/works/OL893415W".
Proof.
  intros w. apply (C10_toggle_frame emma w "/works/OL893415W").
  vm_compute. discriminate.
Defined.

(** ** Loading the save-set *)

Section loading.
Context {A : Type} `{Json A}.

Lemma useLocalStorage_init_total (st : Storage) k (initial : A) :
  ∃ v, useLocalStorage_init st k initial = Ok v.
Proof.
  unfold useLocalStorage_init, getItem.
  destruct (denied st); cbn; [by eexists|].
  destruct (items st !! k) as [raw|]; cbn; [|by eexists].
  destruct (truthy raw); [|by eexists].
  destruct (JSON_parse raw); cbn; by eexists.
Qed.

Lemma useLocalStorage_init_fallback (st : Storage) k (initial : A) :
  nothing_to_load st k → useLocalStorage_init st k initial = Ok initial.
Proof.
  unfold useLocalStorage_init, getItem.
  intros [Hd|[Hk|[Hk|(raw & e & Hk & Hp)]]].
  - by rewrite Hd.
  - destruct (denied st); [done|]. by rewrite Hk.
  - destruct (denied st); [done|]. by rewrite Hk.
  - destruct (denied st); [done|]. rewrite Hk. cbn.
    destruct (truthy raw); [|done]. by rewrite Hp.
Qed.

(** What is stored and parses is what is loaded. *)
Lemma useLocalStorage_init_loads (st : Storage) k (initial : A) raw v :
  denied st = false → items st !! k = Some raw → raw ≠ "" →
  JSON_parse raw = Ok v →
  useLocalStorage_init st k initial = Ok v.
Proof.
  intros Hd Hk Hraw Hp. unfold useLocalStorage_init, getItem.
  rewrite Hd, Hk. cbn. rewrite (nonempty_truthy _ Hraw). by rewrite Hp.
Qed.

End loading.

(** C4. Whatever the storage holds, initialising [saved] returns a
    save-set and throws nothing; and when the storage cannot be read, the
    slot is absent or empty, or its content does not parse, that save-set
    is the empty mapping. *)
Theorem C4_load_never_raises `{Json SaveSet} (st : Storage) :
  (∃ S, saved_init st = Ok S)
  ∧ (nothing_to_load (A:=SaveSet) st "bf_saved" → saved_init st = Ok ∅).
Proof.
  split.
  - apply useLocalStorage_init_total.
  - apply useLocalStorage_init_fallback.
Qed.

(** A slot holding text that is no JSON loads as the empty save-set. *)
Lemma C4_load_never_raises_witness :
  @saved_init empty_object_json
    (mkStorage false {["bf_saved" := "{oops"]}) = Ok ∅.
Proof.
  apply (proj2 (@C4_load_never_raises empty_object_json
                  (mkStorage false {["bf_saved" := "{oops"]}))).
  right. right. right. exists "{oops", SyntaxError. by vm_compute.
Defined.

(** ** Sorting the documents *)

Lemma year_or_0_eq doc : first_publish_year doc ||: 0 = year_or_0 doc.
Proof.
  unfold year_or_0, or_else. destruct (first_publish_year doc) as [| |y]; try done.
  unfold truthy, truthy_number. by destruct (Z.eqb_spec y 0).
Qed.

Lemma title_or_empty_eq doc : title doc ||: "" = title_or_empty doc.
Proof.
  unfold title_or_empty, or_else. destruct (title doc) as [| |t]; try done.
  by destruct t.
Qed.

Lemma StronglySorted_ext {A} (R1 R2 : A → A → Prop) l :
  (∀ a b, R1 a b → R2 a b) → StronglySorted R1 l → StronglySorted R2 l.
Proof.
  intros HR. induction 1 as [|x l Hs IH Hall]; constructor; [done|].
  eapply Forall_impl; [exact Hall|]. auto.
Qed.

(** Code-unit comparison is a consistent comparator. *)
Lemma ordinal_locale_le a b : ordinal_locale a b ≤ 0 ↔ String.le a b.
Proof.
  unfold ordinal_locale, String.le.
  destruct (decide (a = b)) as [->|Hab].
  - split; [|done]. intros _. apply (reflexivity (R:=String.le)).
  - destruct (String.leb a b); cbn; split; (done || lia).
Qed.

Lemma ordinal_locale_consistent : @LocaleConsistent ordinal_locale.
Proof.
  split.
  - intros a b. rewrite !ordinal_locale_le. apply (total String.le).
  - intros a b c. rewrite !ordinal_locale_le. apply (transitivity (R:=String.le)).
Qed.

Section sorted_docs.
Context `{LocaleConsistent}.

Lemma sortedDocs_other (docs : list Doc) sort :
  sort ≠ "year_desc" → sort ≠ "year_asc" → sort ≠ "title_asc" →
  sortedDocs docs sort = docs.
Proof.
  intros H1 H2 H3. unfold sortedDocs.
  apply String.eqb_neq in H1, H2, H3. by rewrite H1, H2, H3.
Qed.

Lemma sortedDocs_year_desc (docs : list Doc) :
  StronglySorted (λ a b, year_or_0 b ≤ year_or_0 a)
    (sortedDocs docs "year_desc").
Proof.
  cbn. eapply StronglySorted_ext; [|apply Array_sort_sorted].
  - intros a b. unfold cmp_le. rewrite !year_or_0_eq. lia.
  - intros a b. unfold cmp_le. lia.
  - intros a b c. unfold cmp_le. lia.
Qed.

Lemma sortedDocs_year_asc (docs : list Doc) :
  StronglySorted (λ a b, year_or_0 a ≤ year_or_0 b)
    (sortedDocs docs "year_asc").
Proof.
  cbn. eapply StronglySorted_ext; [|apply Array_sort_sorted].
  - intros a b. unfold cmp_le. rewrite !year_or_0_eq. lia.
  - intros a b. unfold cmp_le. lia.
  - intros a b c. unfold cmp_le. lia.
Qed.

Lemma sortedDocs_title_asc (docs : list Doc) :
  StronglySorted
    (λ a b, localeCompare (title_or_empty a) (title_or_empty b) ≤ 0)
    (sortedDocs docs "title_asc").
Proof.
  cbn. eapply StronglySorted_ext; [|apply Array_sort_sorted].
  - intros a b. unfold cmp_le. by rewrite !title_or_empty_eq.
  - intros a b. unfold cmp_le. apply localeCompare_total.
  - intros a b c. unfold cmp_le. apply localeCompare_trans.
Qed.

Lemma sortedDocs_perm (docs : list Doc) sort : sortedDocs docs sort ≡ₚ docs.
Proof.
  unfold sortedDocs.
  repeat (destruct (String.eqb sort _); [apply Array_sort_perm|]). done.
Qed.

Lemma sortedDocs_idemp (docs : list Doc) sort :
  sortedDocs (sortedDocs docs sort) sort = sortedDocs docs sort.
Proof.
  unfold sortedDocs.
  destruct (String.eqb sort "year_desc").
  { apply Array_sort_idemp; unfold cmp_le; intros; lia. }
  destruct (String.eqb sort "year_asc").
  { apply Array_sort_idemp; unfold cmp_le; intros; lia. }
  destruct (String.eqb sort "title_asc"); [|done].
  apply Array_sort_idemp.
  - intros a b. unfold cmp_le. apply localeCompare_total.
  - intros a b c. unfold cmp_le. apply localeCompare_trans.
Qed.

End sorted_docs.

(** The heap reading: the result is a new array holding the sorted copy,
    and every array that was there is left as it was. *)
Lemma sortedDocs_heap_spec `{Locale} (h : Heap) l (docs : list Doc) sort :
  h !! l = Some docs →
  (snd (sortedDocs_heap h l sort) ∉ dom h)
  ∧ (sortedDocs_heap h l sort).1 !! (sortedDocs_heap h l sort).2
    = Some (sortedDocs docs sort)
  ∧ ∀ l' ds, h !! l' = Some ds → (sortedDocs_heap h l sort).1 !! l' = Some ds.
Proof.
  intros Hl. unfold sortedDocs_heap, sortedDocs, spread, sort_in_place.
  rewrite Hl. cbn [default].
  pose proof (is_fresh (dom h)) as Hfresh.
  set (arr := fresh (dom h)) in *.
  assert (Hne : ∀ l' ds, h !! l' = Some ds → arr ≠ l').
  { intros l' ds Hl' ->. by apply Hfresh, elem_of_dom. }
  repeat destruct (String.eqb sort _); cbn [fst snd];
    (split; [done|split]);
    rewrite ?lookup_alter_eq, ?lookup_insert_eq; try done;
    intros l' ds Hl'; specialize (Hne l' ds Hl');
    by rewrite ?lookup_alter_ne, lookup_insert_ne.
Qed.

(** C5. [relevance] leaves the documents in the order received. Each of
    the other three orders gives the same documents, rearranged: the two
    year orders in descending and in ascending order of first publish
    year, a missing year counting as 0; and [title_asc] in the order of
    [localeCompare] on the titles, a missing title counting as the empty
    string. *)
Theorem C5_sort_orders `{LocaleConsistent} (docs : list Doc) :
  sortedDocs docs "relevance" = docs
  ∧ (sortedDocs docs "year_desc" ≡ₚ docs
     ∧ StronglySorted (λ a b, year_or_0 b ≤ year_or_0 a)
         (sortedDocs docs "year_desc"))
  ∧ (sortedDocs docs "year_asc" ≡ₚ docs
     ∧ StronglySorted (λ a b, year_or_0 a ≤ year_or_0 b)
         (sortedDocs docs "year_asc"))
  ∧ (sortedDocs docs "title_asc" ≡ₚ docs
     ∧ StronglySorted
         (λ a b, localeCompare (title_or_empty a) (title_or_empty b) ≤ 0)
         (sortedDocs docs "title_asc")).
Proof.
  split; [done|].
  split; [split; [apply sortedDocs_perm|apply sortedDocs_year_desc]|].
  split; [split; [apply sortedDocs_perm|apply sortedDocs_year_asc]|].
  split; [apply sortedDocs_perm|apply sortedDocs_title_asc].
Qed.

Lemma C5_sort_orders_witness :
  let docs := [dune; emma; no_doc] in
  @sortedDocs ordinal_locale docs "relevance" = docs
  ∧ (@sortedDocs ordinal_locale docs "year_desc" ≡ₚ docs
     ∧ StronglySorted (λ a b, year_or_0 b ≤ year_or_0 a)
         (@sortedDocs ordinal_locale docs "year_desc"))
  ∧ (@sortedDocs ordinal_locale docs "year_asc" ≡ₚ docs
     ∧ StronglySorted (λ a b, year_or_0 a ≤ year_or_0 b)
         (@sortedDocs ordinal_locale docs "year_asc"))
  ∧ (@sortedDocs ordinal_locale docs "title_asc" ≡ₚ docs
     ∧ StronglySorted
         (λ a b, ordinal_locale (title_or_empty a) (title_or_empty b) ≤ 0)
         (@sortedDocs ordinal_locale docs "title_asc")).
Proof.
  exact (@C5_sort_orders ordinal_locale ordinal_locale_consistent
           [dune; emma; no_doc]).
Defined.

Example sortedDocs_by_year_and_title :
  @sortedDocs ordinal_locale [dune; emma; no_doc] "year_desc"
  = [dune; emma; no_doc]
  ∧ @sortedDocs ordinal_locale [dune; emma; no_doc] "year_asc"
    = [no_doc; emma; dune]
  ∧ @sortedDocs ordinal_locale [dune; emma; no_doc] "title_asc"
    = [no_doc; dune; emma].
Proof. by vm_compute. Qed.

(** C6. Sorting what is already sorted by the same selection changes
    nothing; the result is a permutation of the documents; and the sort
    works on a new array, so the array it was given, like every other array
    there was, still holds what it held. *)
Theorem C6_sort_idempotent_nonmutating `{LocaleConsistent}
    (h : Heap) (l : positive) (docs : list Doc) (sort : string) :
  h !! l = Some docs →
  sortedDocs (sortedDocs docs sort) sort = sortedDocs docs sort
  ∧ sortedDocs docs sort ≡ₚ docs
  ∧ (sortedDocs_heap h l sort).1 !! (sortedDocs_heap h l sort).2
    = Some (sortedDocs docs sort)
  ∧ (sortedDocs_heap h l sort).1 !! l = Some docs
  ∧ ∀ l' ds, h !! l' = Some ds → (sortedDocs_heap h l sort).1 !! l' = Some ds.
Proof.
  intros Hl.
  destruct (sortedDocs_heap_spec h l docs sort Hl) as (_ & Harr & Hold).
  split; [apply sortedDocs_idemp|].
  split; [apply sortedDocs_perm|].
  split; [done|]. split; [by apply Hold|done].
Qed.

Lemma C6_sort_idempotent_nonmutating_witness :
  let docs := [dune; emma; no_doc] in
  let h : Heap := {[1%positive := docs]} in
  let sorted := @sortedDocs ordinal_locale docs "year_asc" in
  let after := @sortedDocs_heap ordinal_locale h 1%positive "year_asc" in
  @sortedDocs ordinal_locale sorted "year_asc" = sorted
  ∧ sorted ≡ₚ docs
  ∧ after.1 !! after.2 = Some sorted
  ∧ after.1 !! 1%positive = Some docs
  ∧ ∀ l' ds, h !! l' = Some ds → after.1 !! l' = Some ds.
Proof.
  intros docs h sorted after.
  apply (@C6_sort_idempotent_nonmutating ordinal_locale
           ordinal_locale_consistent h 1%positive docs "year_asc").
  reflexivity.
Defined.

(** * Further properties of the component *)

(** ** Searching *)

(** X1. Whatever the network does, [searchBooks] returns normally, and it
    writes only the loading flag, the error message, the documents and the
    result count: the title, author, sort, page, selection, save-set and
    scroll position are as before. After a search that was sent the
    loading flag is down. *)
Theorem searchBooks_settles net r pageOverride w :
  let res := searchBooks net r pageOverride w in
  res.1 = Ok ()
  ∧ query (app res.2) = query (app w)
  ∧ author (app res.2) = author (app w)
  ∧ sort (app res.2) = sort (app w)
  ∧ page (app res.2) = page (app w)
  ∧ selected (app res.2) = selected (app w)
  ∧ saved (app res.2) = saved (app w)
  ∧ scrollTop res.2 = scrollTop w
  ∧ loading (app res.2)
    = (if decide (trim (query r) = "") then loading (app w) else false).
Proof.
  intros res. subst res.
  destruct (decide (trim (query r) = "")) as [Hq|Hq].
  { by rewrite (searchBooks_blank _ _ _ _ Hq). }
  unfold searchBooks.
  rewrite (nonempty_truthy _ Hq). cbn [negb].
  rewrite search_url_built.
  unfold M_finally, M_try_catch, mbind, M_bind, fetch, setLoading, setError,
    setDocs, setNumFound, modify, throw, res_json, mret, M_ret.
  cbn [app sent scrollTop].
  destruct (net (search_url r pageOverride)) as [|status body]; cbn; [done|].
  destruct (res_ok status); cbn; [|done].
  by destruct body.
Qed.

(** X2. A missing page override, or an override of 0, makes the request ask
    for the current page of the render. *)
Theorem searchBooks_page_fallback net r pageOverride w :
  trim (query r) ≠ "" →
  truthy pageOverride = false →
  ∃ u, sent (searchBooks net r pageOverride w).2 = (sent w ++ [u])%list
     ∧ ("page", toString (page r)) ∈ searchParams u
     ∧ ∀ v, ("page", v) ∈ searchParams u → v = toString (page r).
Proof.
  intros Hq Hpo.
  destruct (searchBooks_sent net r pageOverride w Hq) as (s' & -> & _).
  exists (search_url r pageOverride). split; [done|].
  assert (Hpg : pageOverride ||: page r = page r).
  { destruct pageOverride as [| |n]; try done.
    change (truthy n = false) in Hpo. unfold or_else. by rewrite Hpo. }
  unfold search_url, search_params. rewrite Hpg. cbn [searchParams].
  destruct (decide (trim (author r) = "")); cbn; split.
  - rewrite !elem_of_cons. by right; left.
  - intros v. rewrite !elem_of_cons, elem_of_nil.
    intros [[=]|[[= ->]|[[=]|[]]]]. done.
  - rewrite !elem_of_cons. by right; right; left.
  - intros v. rewrite !elem_of_cons, elem_of_nil.
    intros [[=]|[[=]|[[= ->]|[[=]|[]]]]]. done.
Qed.

Lemma searchBooks_page_fallback_witness :
  ∃ u, sent (searchBooks (λ _, NetworkFailure)
               (mkState "Dune" "" "relevance" 3 false "" [] 45 Null ∅)
               (Val 0) (world0 state0)).2 = ([] ++ [u])%list
     ∧ ("page", "3") ∈ searchParams u
     ∧ ∀ v, ("page", v) ∈ searchParams u → v = "3".
Proof.
  apply (searchBooks_page_fallback (λ _, NetworkFailure)
           (mkState "Dune" "" "relevance" 3 false "" [] 45 Null ∅)
           (Val 0) (world0 state0)).
  - vm_compute. discriminate.
  - reflexivity.
Defined.

(** ** Submitting and quick examples *)

Lemma submit_enabled_title r :
  submit_disabled r = false → trim (query r) ≠ "" ∧ loading r = false.
Proof.
  unfold submit_disabled. intros H. apply orb_false_elim in H as [Hq Hl].
  split; [|done]. intros Heq. by rewrite Heq in Hq.
Qed.

(** X3. When the Search button is enabled, submitting returns normally,
    puts the current page back to 1 and sends exactly one request, which
    asks for page 1 of the trimmed title. *)
Theorem onSubmit_enabled net r w :
  submit_disabled r = false →
  (onSubmit net r w).1 = Ok ()
  ∧ page (app (onSubmit net r w).2) = 1
  ∧ sent (onSubmit net r w).2
    = (sent w ++ [mkURL "https://openlibrary.org/search.json"
                    (search_params r 1)])%list.
Proof.
  intros Hen. apply submit_enabled_title in Hen as [Hq _].
  cbv [onSubmit mbind M_bind setPage modify].
  edestruct (searchBooks_sent net r (Val 1)) as (s' & -> & _ & Hp & _);
    [exact Hq|].
  cbn in *. by rewrite Hp.
Qed.

Lemma onSubmit_enabled_witness :
  let r := typed "  Dune " "Herbert" in
  (onSubmit (λ _, NetworkFailure) r (world0 r)).1 = Ok ()
  ∧ page (app (onSubmit (λ _, NetworkFailure) r (world0 r)).2) = 1
  ∧ sent (onSubmit (λ _, NetworkFailure) r (world0 r)).2
    = ([] ++ [mkURL "https://openlibrary.org/search.json"
                (search_params r 1)])%list.
Proof.
  intros r. apply (onSubmit_enabled (λ _, NetworkFailure) r (world0 r)).
  reflexivity.
Defined.

(** X4. With a blank title the two handlers that search still move the
    page ([onSubmit] to 1, [gotoPage] to the clamped target, scrolling to
    the top as well) but send nothing and leave the loading flag, the
    error message, the documents and the result count alone. *)
Theorem blank_title_still_moves_page net r p w :
  blank (query r) = true →
  onSubmit net r w
  = (Ok (),
     mkWorld
       (mkState (query (app w)) (author (app w)) (sort (app w)) 1
          (loading (app w)) (error (app w)) (docs (app w)) (numFound (app w))
          (selected (app w)) (saved (app w)))
       (sent w) (scrollTop w))
  ∧ gotoPage net r p w
    = (Ok (),
       mkWorld
         (mkState (query (app w)) (author (app w)) (sort (app w))
            (Z.min (Z.max 1 p) (totalPages (numFound r)))
            (loading (app w)) (error (app w)) (docs (app w))
            (numFound (app w)) (selected (app w)) (saved (app w)))
         (sent w) 0).
Proof.
  intros Hb. apply trim_blank in Hb. split.
  - cbv [onSubmit mbind M_bind setPage modify].
    by rewrite (searchBooks_blank net r (Val 1) _ Hb).
  - cbv [gotoPage mbind M_bind setPage modify scrollTo].
    by rewrite (searchBooks_blank net r _ _ Hb).
Qed.

Lemma blank_title_still_moves_page_witness :
  let r := mkState "  " "" "relevance" 3 false "" [dune] 45 Null ∅ in
  sent (onSubmit (λ _, NetworkFailure) r (world0 r)).2 = []
  ∧ page (app (onSubmit (λ _, NetworkFailure) r (world0 r)).2) = 1
  ∧ page (app (gotoPage (λ _, NetworkFailure) r 7 (world0 r)).2) = 3.
Proof.
  intros r.
  destruct (blank_title_still_moves_page (λ _, NetworkFailure) r 7 (world0 r)
              eq_refl) as [-> ->].
  by vm_compute.
Defined.

(** X5. After a quick example is picked, whatever the author field held,
    submitting asks for page 1 of that example with no author parameter. *)
Theorem quickPick_then_submit net ex w :
  trim ex ≠ "" →
  let w1 := (quickPick ex w).2 in
  query (app w1) = ex ∧ author (app w1) = "" ∧ page (app w1) = 1
  ∧ sent (onSubmit net (app w1) w1).2
    = (sent w ++ [mkURL "https://openlibrary.org/search.json"
                    [("title", trim ex); ("page", "1"); ("limit", "20")]])%list.
Proof.
  intros Hq w1. subst w1.
  cbv [quickPick mbind M_bind setQuery setAuthor setPage modify]. cbn.
  repeat (split; [done|]).
  cbv [onSubmit mbind M_bind setPage modify]. cbn.
  edestruct (searchBooks_sent net) as (s' & -> & _); [exact Hq|].
  by cbn.
Qed.

Lemma quickPick_then_submit_witness :
  let w := world0 (typed "Emma" "Jane Austen") in
  let w1 := (quickPick "Atomic Habits" w).2 in
  query (app w1) = "Atomic Habits" ∧ author (app w1) = "" ∧ page (app w1) = 1
  ∧ sent (onSubmit (λ _, NetworkFailure) (app w1) w1).2
    = ([] ++ [mkURL "https://openlibrary.org/search.json"
                [("title", "Atomic Habits"); ("page", "1");
                 ("limit", "20")]])%list.
Proof.
  intros w.
  apply (quickPick_then_submit (λ _, NetworkFailure) "Atomic Habits" w).
  vm_compute. discriminate.
Defined.

(** ** The pager *)

Lemma totalPages_bounds n :
  0 < n → LIMIT * (totalPages n - 1) < n ≤ LIMIT * totalPages n.
Proof.
  intros Hn. unfold totalPages.
  pose proof (Math_ceil_div_is_ceiling n LIMIT eq_refl) as Hc.
  unfold is_ceiling, LIMIT in *. lia.
Qed.

Lemma gotoPage_page net r p w :
  page (app (gotoPage net r p w).2)
  = Z.min (Z.max 1 p) (totalPages (numFound r)).
Proof. by destruct (gotoPage_run net r p w) as (-> & _). Qed.

(** X6. While the current page lies between 1 and the page count, an
    enabled Prev goes back exactly one page and an enabled Next forward
    exactly one page, neither leaving that interval; Prev is disabled on
    page 1 and Next on the last page. *)
Theorem pager_moves_one_page net r w :
  1 ≤ page r ≤ totalPages (numFound r) →
  (prev_disabled r = false →
     page (app (gotoPage net r (page r - 1) w).2) = page r - 1
     ∧ 1 ≤ page r - 1)
  ∧ (next_disabled r = false →
       page (app (gotoPage net r (page r + 1) w).2) = page r + 1
       ∧ page r + 1 ≤ totalPages (numFound r))
  ∧ (page r = 1 → prev_disabled r = true)
  ∧ (page r = totalPages (numFound r) → next_disabled r = true).
Proof.
  intros [Hlo Hhi]. unfold prev_disabled, next_disabled.
  rewrite !gotoPage_page. split; [|split; [|split]].
  - intros H. apply orb_false_elim in H as [H _]. apply Z.leb_gt in H. lia.
  - intros H. apply orb_false_elim in H as [H _]. apply Z.leb_gt in H. lia.
  - by intros ->.
  - intros ->. by rewrite Z.leb_refl.
Qed.

Lemma pager_moves_one_page_witness :
  let r := mkState "Dune" "" "relevance" 2 false "" [dune] 45 Null ∅ in
  let net : Network := λ _, NetworkFailure in
  (prev_disabled r = false →
     page (app (gotoPage net r (page r - 1) (world0 r)).2) = page r - 1
     ∧ 1 ≤ page r - 1)
  ∧ (next_disabled r = false →
       page (app (gotoPage net r (page r + 1) (world0 r)).2) = page r + 1
       ∧ page r + 1 ≤ totalPages (numFound r))
  ∧ (page r = 1 → prev_disabled r = true)
  ∧ (page r = totalPages (numFound r) → next_disabled r = true).
Proof.
  intros r net. apply (pager_moves_one_page net r (world0 r)).
  by vm_compute.
Defined.

(** X7. When there are results and the current page lies between 1 and the
    page count, "Showing a–b of n" names a range that is not empty, lies
    within 1..n and holds at most 20 results: exactly 20 on every page but
    the last, and ending at n on the last. *)
Theorem showing_range r :
  0 < numFound r →
  1 ≤ page r ≤ totalPages (numFound r) →
  1 ≤ showing_from r ≤ showing_to r
  ∧ showing_to r ≤ numFound r
  ∧ showing_to r - showing_from r + 1 ≤ LIMIT
  ∧ (page r < totalPages (numFound r) →
       showing_to r - showing_from r + 1 = LIMIT)
  ∧ (page r = totalPages (numFound r) → showing_to r = numFound r).
Proof.
  intros Hn [Hlo Hhi].
  pose proof (totalPages_bounds _ Hn) as Ht.
  unfold showing_from, showing_to, LIMIT in *.
  repeat split; try lia.
Qed.

Lemma showing_range_witness :
  let r := mkState "Dune" "" "relevance" 3 false "" [dune] 45 Null ∅ in
  1 ≤ showing_from r ≤ showing_to r
  ∧ showing_to r ≤ numFound r
  ∧ showing_to r - showing_from r + 1 ≤ LIMIT
  ∧ (page r < totalPages (numFound r) →
       showing_to r - showing_from r + 1 = LIMIT)
  ∧ (page r = totalPages (numFound r) → showing_to r = numFound r).
Proof.
  intros r. apply (showing_range r); by vm_compute.
Defined.

Example showing_41_to_45 :
  let r := mkState "Dune" "" "relevance" 3 false "" [dune] 45 Null ∅ in
  showing_from r = 41 ∧ showing_to r = 45.
Proof. by vm_compute. Qed.

(** ** More on the save-set *)

Lemma removeSaved_saved b w :
  saved (app (removeSaved b w).2) = removeSaved_next b (saved (app w)).
Proof. reflexivity. Qed.

(** X8. A toggle removes the entry under the document's key when there is
    one, taking the number of saved entries down by one. When there is
    none it stores one, taking the number up by one, unless the key names
    a member every object inherits: then the save-set stays as it is. *)
Theorem toggleSave_flips doc w :
  let before := saved (app w) in
  let after := saved (app (toggleSave doc w).2) in
  match before !! toBookKey doc with
  | Some _ =>
      after !! toBookKey doc = None ∧ size before = (1 + size after)%nat
  | None =>
      if inherits (toBookKey doc) then after = before
      else is_Some (after !! toBookKey doc)
           ∧ size after = (1 + size before)%nat
  end.
Proof.
  intros before after. subst after. rewrite toggleSave_saved. fold before.
  destruct (before !! toBookKey doc) as [e|] eqn:Hk.
  - rewrite (toggleSave_next_present _ _ _ Hk), lookup_delete_eq.
    split; [done|].
    rewrite map_size_delete, Hk. cbn.
    assert (size before ≠ 0%nat); [|lia].
    intros H0. apply map_size_empty_inv in H0. by rewrite H0 in Hk.
  - destruct (inherits (toBookKey doc)) eqn:Hi.
    + rewrite (toggleSave_next_inherited _ _ Hi). by apply delete_id.
    + rewrite (toggleSave_next_absent _ _ Hk Hi), lookup_insert_eq.
      split; [by eexists|]. by rewrite map_size_insert_None.
Qed.

(** X21. A document whose key names a member every object inherits (such
    as "constructor") is never stored: a toggle leaves no entry under that
    key, so it changes nothing when there was none and removes the entry
    when there was one, and a second toggle does not put it back. *)
Theorem toggleSave_inherited_key doc w :
  inherits (toBookKey doc) = true →
  let before := saved (app w) in
  let once := saved (app (toggleSave doc w).2) in
  let twice := saved (app ((toggleSave doc;; toggleSave doc) w).2) in
  once = delete (toBookKey doc) before
  ∧ once !! toBookKey doc = None
  ∧ twice = once
  ∧ (before !! toBookKey doc = None → once = before).
Proof.
  intros Hi before once twice. subst once twice.
  rewrite toggleSave_twice_saved, toggleSave_saved. fold before.
  rewrite !(toggleSave_next_inherited _ _ Hi).
  split; [done|]. split; [apply lookup_delete_eq|].
  split; [by rewrite delete_delete_eq|].
  apply delete_id.
Qed.

Lemma toggleSave_inherited_key_witness :
  let w := world_saving {["constructor" := new_entry "constructor" dune]} in
  let before := saved (app w) in
  let once := saved (app (toggleSave constructor_doc w).2) in
  let twice :=
    saved (app ((toggleSave constructor_doc;; toggleSave constructor_doc) w).2)
  in
  once = delete (toBookKey constructor_doc) before
  ∧ once !! toBookKey constructor_doc = None
  ∧ twice = once
  ∧ (before !! toBookKey constructor_doc = None → once = before).
Proof.
  intros w.
  apply (toggleSave_inherited_key constructor_doc w). reflexivity.
Defined.

(** X9. Toggling two documents with different keys gives the same save-set
    in either order. *)
Theorem toggleSave_commute d1 d2 w :
  toBookKey d1 ≠ toBookKey d2 →
  saved (app ((toggleSave d1;; toggleSave d2) w).2)
  = saved (app ((toggleSave d2;; toggleSave d1) w).2).
Proof.
  intros Hne.
  change (toggleSave_next d2 (toggleSave_next d1 (saved (app w)))
          = toggleSave_next d1 (toggleSave_next d2 (saved (app w)))).
  generalize (saved (app w)). intros m.
  assert (Hat : ∀ d d' (m' : SaveSet), toBookKey d ≠ toBookKey d' →
    truthy_at (toggleSave_next d m') (toBookKey d')
    = truthy_at m' (toBookKey d')).
  { intros d d' m' Hd. unfold truthy_at.
    by rewrite toggleSave_next_other. }
  unfold toggleSave_next at 1 3. cbn zeta.
  rewrite !Hat by done.
  unfold toggleSave_next.
  destruct (truthy_at m (toBookKey d1)), (truthy_at m (toBookKey d2)).
  - apply delete_delete.
  - by rewrite delete_insert_ne.
  - by rewrite delete_insert_ne.
  - by apply insert_insert_ne.
Qed.

Lemma toggleSave_commute_witness :
  saved (app ((toggleSave dune;; toggleSave emma) (world_saving ∅)).2)
  = saved (app ((toggleSave emma;; toggleSave dune) (world_saving ∅)).2).
Proof.
  apply (toggleSave_commute dune emma (world_saving ∅)).
  vm_compute. discriminate.
Defined.

Lemma keys_consistent_empty : keys_consistent ∅.
Proof. intros k e. by rewrite lookup_empty. Qed.

Lemma keys_consistent_toggle doc (m : SaveSet) :
  keys_consistent m → keys_consistent (toggleSave_next doc m).
Proof.
  intros Hm k e. destruct (toggleSave_next_cases doc m) as [-> | ->].
  - rewrite lookup_delete_Some. intros [_ He]. by apply Hm.
  - rewrite lookup_insert_Some. intros [[<- <-]|[_ He]]; [done|by apply Hm].
Qed.

Lemma keys_consistent_remove b (m : SaveSet) :
  keys_consistent m → keys_consistent (removeSaved_next b m).
Proof.
  intros Hm k e. unfold removeSaved_next.
  rewrite lookup_delete_Some. intros [_ He]. by apply Hm.
Qed.

(** X10. Starting from a save-set in which every entry records the key it
    is stored under (the empty one is such), toggling a document and
    removing an entry keep it so. *)
Theorem keys_consistent_kept doc b w :
  keys_consistent (saved (app w)) →
  keys_consistent (saved (app (toggleSave doc w).2))
  ∧ keys_consistent (saved (app (removeSaved b w).2)).
Proof.
  intros Hm. rewrite toggleSave_saved, removeSaved_saved.
  split; [by apply keys_consistent_toggle|by apply keys_consistent_remove].
Qed.

Lemma keys_consistent_kept_witness :
  keys_consistent (saved (app (toggleSave dune (world_saving ∅)).2))
  ∧ keys_consistent
      (saved (app (removeSaved (new_entry "Dune-1965" dune_a)
                     (world_saving ∅)).2)).
Proof.
  apply (keys_consistent_kept dune (new_entry "Dune-1965" dune_a)
           (world_saving ∅)).
  apply keys_consistent_empty.
Defined.

(** X11. In such a save-set the Remove button beside a listed entry takes
    out that entry and no other: its key is gone, there is one entry less,
    and every other key holds what it held. *)
Theorem removeSaved_exact k b w :
  keys_consistent (saved (app w)) →
  saved (app w) !! k = Some b →
  let after := saved (app (removeSaved b w).2) in
  after = delete k (saved (app w))
  ∧ after !! k = None
  ∧ size (saved (app w)) = (1 + size after)%nat
  ∧ ∀ k', k' ≠ k → after !! k' = saved (app w) !! k'.
Proof.
  intros Hm Hk after. subst after. rewrite removeSaved_saved.
  unfold removeSaved_next. cbn zeta. rewrite (Hm k b Hk).
  split; [done|]. split; [apply lookup_delete_eq|]. split.
  - rewrite map_size_delete, Hk. cbn.
    assert (size (saved (app w)) ≠ 0%nat); [|lia].
    intros H0. apply map_size_empty_inv in H0. by rewrite H0 in Hk.
  - intros k' Hk'. by apply lookup_delete_ne.
Qed.

Lemma removeSaved_exact_witness :
  let w := (toggleSave dune (world_saving ∅)).2 in
  let b := new_entry "/works/OL893415W" dune in
  let after := saved (app (removeSaved b w).2) in
  after = delete "/works/OL893415W" (saved (app w))
  ∧ after !! "/works/OL893415W" = None
  ∧ size (saved (app w)) = (1 + size after)%nat
  ∧ ∀ k', k' ≠ "/works/OL893415W" → after !! k' = saved (app w) !! k'.
Proof.
  intros w b.
  apply (removeSaved_exact "/works/OL893415W" b w).
  - apply keys_consistent_toggle, keys_consistent_empty.
  - reflexivity.
Defined.

(** X12. Saving a document that was not saved, under a key that names no
    member every object inherits, stores the entry built from it; pressing
    Remove on that entry then gives back the save-set there was. *)
Theorem remove_undoes_save doc w :
  saved (app w) !! toBookKey doc = None →
  inherits (toBookKey doc) = false →
  let b := new_entry (toBookKey doc) doc in
  saved (app (toggleSave doc w).2) !! toBookKey doc = Some b
  ∧ saved (app ((toggleSave doc;; removeSaved b) w).2) = saved (app w).
Proof.
  intros Hk Hi b.
  change (toggleSave_next doc (saved (app w)) !! toBookKey doc = Some b
          ∧ removeSaved_next b (toggleSave_next doc (saved (app w)))
            = saved (app w)).
  rewrite (toggleSave_next_absent _ _ Hk Hi). split; [apply lookup_insert_eq|].
  unfold removeSaved_next, b. cbn. rewrite delete_insert_eq. by apply delete_id.
Qed.

Lemma remove_undoes_save_witness :
  let w := (toggleSave emma (world_saving ∅)).2 in
  let b := new_entry (toBookKey dune) dune in
  saved (app (toggleSave dune w).2) !! toBookKey dune = Some b
  ∧ saved (app ((toggleSave dune;; removeSaved b) w).2) = saved (app w).
Proof.
  intros w. apply (remove_undoes_save dune w); by vm_compute.
Defined.

(** ** Keys, entries and what the cards show *)

Lemma append_empty_inv (s1 s2 : string) : s1 ++ s2 = "" → s1 = "" ∧ s2 = "".
Proof. by destruct s1. Qed.

Lemma append_nonempty_r (s1 s2 : string) : s2 ≠ "" → s1 ++ s2 ≠ "".
Proof. intros H2 H. by apply append_empty_inv in H as [_ ?]. Qed.

Lemma or_else_truthy_string (a : jsval string) (b : string) :
  b ≠ "" → a ||: b ≠ "".
Proof.
  intros Hb. destruct a as [| |x]; cbn; try done. by destruct x.
Qed.

(** X13. The key of a document is never the empty string, whatever fields
    the document lacks. *)
Theorem toBookKey_nonempty doc : toBookKey doc ≠ "".
Proof.
  unfold toBookKey. apply or_else_truthy_string.
  by apply append_nonempty_r.
Qed.

(** X14. The entry made for a document has an author that is never empty
    ("Unknown" when the document names none), and its year, cover and work
    reference are each [null] or a truthy value, so the saved list's tests
    show a field exactly when the entry has it; the year and the work
    reference are the document's own year and key when those are truthy. *)
Theorem new_entry_fields k doc :
  let e := new_entry k doc in
  e_author e ≠ ""
  ∧ null_or_truthy (e_year e)
  ∧ null_or_truthy (e_cover e)
  ∧ null_or_truthy (e_work e)
  ∧ e_year e
    = (if truthy (first_publish_year doc) then first_publish_year doc
       else Null)
  ∧ e_work e = (if truthy (key doc) then key doc else Null)
  ∧ (author_name doc = Undefined ∨ author_name doc = Null
     ∨ author_name doc = Val [] → e_author e = "Unknown").
Proof.
  intros e. subst e. cbn [new_entry e_key e_author e_year e_cover e_work].
  split; [by apply or_else_truthy_string|].
  split.
  { unfold or_null, js_or. destruct (first_publish_year doc) as [| |y];
      [by left..|]. cbn. destruct (truthy y) eqn:Hy; [right; eauto|by left]. }
  split.
  { unfold buildCoverUrl. destruct (truthy (cover_i doc)); [right|by left].
    eexists. split; [done|]. done. }
  split.
  { unfold or_null, js_or. destruct (key doc) as [| |x];
      [by left..|]. cbn. destruct (truthy x) eqn:Hx; [right; eauto|by left]. }
  split; [done|]. split; [done|].
  by intros [->|[->| ->]].
Qed.

(** X15. The author line of a card and of the overlay is never empty: a
    document without authors, with an empty list of them, or whose author
    text comes out empty shows "Unknown author". *)
Theorem author_line_nonempty doc :
  card_author doc ≠ ""
  ∧ overlay_authors doc ≠ ""
  ∧ (author_name doc = Undefined ∨ author_name doc = Null
     ∨ author_name doc = Val [] →
     card_author doc = "Unknown author"
     ∧ overlay_authors doc = "Unknown author").
Proof.
  split; [by apply or_else_truthy_string|].
  split; [by apply or_else_truthy_string|].
  unfold card_author, overlay_authors. by intros [->|[->| ->]].
Qed.

(** X16. The saved list shows a View link for an entry exactly when the
    document it was made from had a non-empty key, and the link then goes
    where the document's card link goes. *)
Theorem saved_href_matches_card k doc :
  match saved_href (new_entry k doc) with
  | Some h => truthy (key doc) = true ∧ h = card_href doc
  | None => truthy (key doc) = false
  end.
Proof.
  unfold saved_href, card_href. cbn [new_entry e_work].
  unfold or_null, js_or.
  destruct (key doc) as [| |x]; [done..|].
  cbn. destruct (truthy x) eqn:Hx; cbn; [|done]. by rewrite Hx.
Qed.

(** A card link of a document without key is not a usable address. *)
Example card_href_without_key :
  card_href dune_a = "https://openlibrary.orgundefined"
  ∧ saved_href (new_entry (toBookKey dune_a) dune_a) = None.
Proof. by vm_compute. Qed.

(** ** Cover addresses *)

Lemma length_append (s1 s2 : string) :
  String.length (s1 ++ s2) = (String.length s1 + String.length s2)%nat.
Proof. induction s1 as [|c s1 IH]; simpl; [done|]. by f_equal. Qed.

Lemma append_cancel_r (s1 s2 t : string) : s1 ++ t = s2 ++ t → s1 = s2.
Proof.
  revert s2. induction s1 as [|c s1 IH]; intros [|d s2]; cbn; [done|..].
  - intros H. apply (f_equal String.length) in H.
    rewrite !length_append in H. cbn in H. lia.
  - intros H. apply (f_equal String.length) in H.
    rewrite !length_append in H. cbn in H. lia.
  - intros [= -> H]. f_equal. by apply IH.
Qed.

(** X17. There is no cover address exactly when the cover identifier is
    missing or 0, at every size alike; and at a given size two documents
    get the same address only when they have the same cover identifier. *)
Theorem buildCoverUrl_faithful doc doc' size size' u :
  (buildCoverUrl doc size = Null ↔ truthy (cover_i doc) = false)
  ∧ (buildCoverUrl doc size = Null ↔ buildCoverUrl doc size' = Null)
  ∧ (buildCoverUrl doc size = Val u → buildCoverUrl doc' size = Val u →
     cover_i doc' = cover_i doc).
Proof.
  unfold buildCoverUrl. split; [|split].
  - by destruct (truthy (cover_i doc)).
  - by destruct (truthy (cover_i doc)).
  - destruct (cover_i doc) as [| |i]; [done..|].
    destruct (cover_i doc') as [| |j]; [by destruct (truthy (Val i))..|].
    destruct (truthy (Val i)), (truthy (Val j)); try done.
    intros [= <-] [= H]. apply (inj _) in H.
    apply append_cancel_r in H. f_equal. by apply (inj pretty).
Qed.

(** ** Writing the save-set back and loading it again *)

Section persistence.
Context {A : Type} `{Json A} `{JsonStringify A} `{Quota}.

Lemma useLocalStorage_effect_cases (st : Storage) k (v : A) :
  useLocalStorage_effect st k v = Ok st
  ∨ ∃ s, JSON_stringify v = Ok s ∧ denied st = false
       ∧ has_room st k s = true
       ∧ useLocalStorage_effect st k v
         = Ok (mkStorage false (<[k := s]> (items st))).
Proof.
  unfold useLocalStorage_effect, setItem.
  destruct (JSON_stringify v) as [s|e] eqn:Hs; cbn; [|by left].
  destruct (denied st) eqn:Hd; cbn; [by left|].
  destruct (has_room st k s) eqn:Hr; cbn; [|by left].
  right. by exists s.
Qed.

(** X18. Writing the save-set back never throws, whether serialising fails,
    the storage is denied or it is full; it leaves every other slot as it
    was; and its own slot afterwards holds the serialised value, or the
    storage is unchanged. *)
Theorem write_back_is_best_effort (st : Storage) k (v : A) :
  ∃ st', useLocalStorage_effect st k v = Ok st'
       ∧ denied st' = denied st
       ∧ (∀ k', k' ≠ k → items st' !! k' = items st !! k')
       ∧ (st' = st ∨ ∃ s, JSON_stringify v = Ok s ∧ items st' !! k = Some s).
Proof.
  destruct (useLocalStorage_effect_cases st k v)
    as [->|(s & Hs & Hd & _ & ->)].
  - exists st. repeat split; auto.
  - eexists. split; [done|]. cbn. split; [done|]. split.
    + intros k' Hk'. by rewrite lookup_insert_ne.
    + right. exists s. by rewrite lookup_insert_eq.
Qed.

(** X19. When the storage can be written and the serialised value parses
    back to the value, loading after a write gives the value written. *)
Theorem write_then_load (st : Storage) k (v initial : A) s :
  denied st = false →
  JSON_stringify v = Ok s →
  has_room st k s = true →
  s ≠ "" →
  JSON_parse s = Ok v →
  ∃ st', useLocalStorage_effect st k v = Ok st'
       ∧ useLocalStorage_init st' k initial = Ok v.
Proof.
  intros Hd Hs Hr Hne Hp.
  unfold useLocalStorage_effect, setItem. rewrite Hs. cbn. rewrite Hd, Hr. cbn.
  eexists. split; [done|].
  apply (useLocalStorage_init_loads _ _ _ s); [done| |done|done].
  cbn. apply lookup_insert_eq.
Qed.

End persistence.

(** A slot that holds text that is no JSON loads as the empty save-set;
    once two saved documents are written back, loading gives those two. *)
Lemma write_then_load_witness :
  let st := mkStorage false {["bf_saved" := "{oops"]} in
  @saved_init SaveSet_json st = Ok ∅
  ∧ two_saved ≠ ∅
  ∧ ∃ st', @useLocalStorage_effect _ SaveSet_stringify small_quota
             st "bf_saved" two_saved = Ok st'
         ∧ @saved_init SaveSet_json st' = Ok two_saved.
Proof.
  intros st. split; [by vm_compute|]. split.
  { intros Heq. apply (f_equal size) in Heq. vm_compute in Heq. discriminate. }
  apply (@write_then_load SaveSet SaveSet_json SaveSet_stringify
           small_quota st "bf_saved" two_saved ∅ (print_SaveSet two_saved)).
  - reflexivity.
  - reflexivity.
  - by vm_compute.
  - vm_compute. discriminate.
  - by vm_compute.
Defined.

(** The reader also takes what the printer would not write: white space,
    members in another order, escapes; and it refuses what is no JSON. *)
Example read_json_samples :
  read_json " [ 1 , -20, true, null, { }, [ ] ] "
  = Some (JArr [JNum 1; JNum (-20); JBool true; JNull; JObj []; JArr []])
  ∧ read_json "01" = None
  ∧ read_json "1.5" = None
  ∧ read_json "[1,]" = None
  ∧ read_json "{oops" = None
  ∧ SaveSet_json "[]" = Throw (TypeError "not a save-set")
  ∧ SaveSet_json " { } " = Ok ∅.
Proof. by vm_compute. Qed.

(** ** Ties under the sort *)

Section sort_ties.
Context `{LocaleConsistent}.

Lemma year_tie_desc (z d : Doc) :
  cmp_tie (λ a b, (first_publish_year b ||: 0) - (first_publish_year a ||: 0))
    z d
  ↔ year_or_0 d = year_or_0 z.
Proof. unfold cmp_tie. rewrite !year_or_0_eq. lia. Qed.

Lemma year_tie_asc (z d : Doc) :
  cmp_tie (λ a b, (first_publish_year a ||: 0) - (first_publish_year b ||: 0))
    z d
  ↔ year_or_0 d = year_or_0 z.
Proof. unfold cmp_tie. rewrite !year_or_0_eq. lia. Qed.

(** X20. The sort keeps ties in the order received: the documents that
    share a first publish year (a missing one counting as 0) come out of
    either year order in the order they went in, and so do, under
    [title_asc], the documents whose titles compare equal. *)
Theorem sortedDocs_keeps_ties (docs : list Doc) (z : Doc) :
  filter (λ d, year_or_0 d = year_or_0 z) (sortedDocs docs "year_desc")
  = filter (λ d, year_or_0 d = year_or_0 z) docs
  ∧ filter (λ d, year_or_0 d = year_or_0 z) (sortedDocs docs "year_asc")
    = filter (λ d, year_or_0 d = year_or_0 z) docs
  ∧ filter
      (cmp_tie (λ a b, localeCompare (title_or_empty a) (title_or_empty b)) z)
      (sortedDocs docs "title_asc")
    = filter
        (cmp_tie (λ a b, localeCompare (title_or_empty a) (title_or_empty b))
           z)
        docs.
Proof.
  split; [|split].
  - rewrite <- !(list_filter_iff _ _ _ (year_tie_desc z)).
    apply Array_sort_stable. unfold cmp_le. intros; lia.
  - rewrite <- !(list_filter_iff _ _ _ (year_tie_asc z)).
    apply Array_sort_stable. unfold cmp_le. intros; lia.
  - assert (Ht : ∀ d,
      cmp_tie (λ a b, localeCompare (title a ||: "") (title b ||: "")) z d
      ↔ cmp_tie
          (λ a b, localeCompare (title_or_empty a) (title_or_empty b)) z d).
    { intros d. unfold cmp_tie. by rewrite !title_or_empty_eq. }
    rewrite <- !(list_filter_iff _ _ _ Ht).
    apply Array_sort_stable. unfold cmp_le. intros a b c.
    apply localeCompare_trans.
Qed.

End sort_ties.

Lemma sortedDocs_keeps_ties_witness :
  let docs := [dune_a; emma; dune_b; no_doc] in
  let z := dune_b in
  filter (λ d, year_or_0 d = year_or_0 z)
    (@sortedDocs ordinal_locale docs "year_desc")
  = filter (λ d, year_or_0 d = year_or_0 z) docs
  ∧ filter (λ d, year_or_0 d = year_or_0 z)
      (@sortedDocs ordinal_locale docs "year_asc")
    = filter (λ d, year_or_0 d = year_or_0 z) docs
  ∧ filter
      (cmp_tie (λ a b, ordinal_locale (title_or_empty a) (title_or_empty b)) z)
      (@sortedDocs ordinal_locale docs "title_asc")
    = filter
        (cmp_tie (λ a b, ordinal_locale (title_or_empty a) (title_or_empty b))
           z)
        docs.
Proof.
  exact (@sortedDocs_keeps_ties ordinal_locale ordinal_locale_consistent
           [dune_a; emma; dune_b; no_doc] dune_b).
Defined.

Example ties_stay_in_order :
  @sortedDocs ordinal_locale [dune_a; emma; dune_b; no_doc] "year_asc"
  = [no_doc; emma; dune_a; dune_b]
  ∧ @sortedDocs ordinal_locale [dune_b; emma; dune_a; no_doc] "year_asc"
    = [no_doc; emma; dune_b; dune_a].
Proof. by vm_compute. Qed.
